(** * explorastro-API: the user router and the date utility

    A shallow embedding of [src/app/routers/user.js] and
    [src/app/utils/date.js].

    The router file is a table: nine calls [router.METHOD(path, ...handlers)]
    on one [express.Router()].  The table is embedded as it is written (the
    path strings verbatim, the handlers by name, in registration order).
    What Express 4 does with such a table (compiling a path into a regular
    expression, walking the routes in registration order, running the
    handlers of a route one after the other through [next]) is embedded in
    [Module Express]; the middlewares and controllers live in other files of
    the application, so their behaviour is a variable of the development.
    Where a statement is about what a middleware does when it rejects a
    request, the middlewares are taken as the specification describes them.

    The date utility is one function over the dayjs library: the branch on
    the language and the two patterns are the file's, and are embedded as
    written.  How dayjs reads a date and which locale pack it selects for a
    language are parameters; that a date can be invalid and prints as
    Invalid Date, and that [.locale()] is a getter for a language that is
    not truthy, are part of the embedding; the meaning of the letters of
    the two patterns follows the specification. *)

From Stdlib Require Import Bool Arith ZArith Lia List Ascii String DecimalString.
Import ListNotations.
Local Open Scope string_scope.
Local Open Scope list_scope.

(** ** Characters and strings *)

Module Chars.

Definition code (c : ascii) : nat := nat_of_ascii c.

(** The character class [\d] of a JavaScript regular expression without the
    [u] flag: the ten ASCII digits. *)
Definition is_digit (c : ascii) : bool :=
  ((48 <=? code c) && (code c <=? 57))%nat.

(** The character class [\w]: ASCII letters, digits and the underscore. *)
Definition is_word (c : ascii) : bool :=
  is_digit c
  || ((65 <=? code c) && (code c <=? 90))%nat
  || ((97 <=? code c) && (code c <=? 122))%nat
  || (code c =? 95)%nat.

(** Case folding of the [i] flag on ASCII: an upper-case letter is compared
    as its lower-case form; every other character is compared as itself. *)
Definition lower (c : ascii) : ascii :=
  if ((65 <=? code c) && (code c <=? 90))%nat
  then ascii_of_nat (code c + 32) else c.

Definition eqb_ci (a b : ascii) : bool := Ascii.eqb (lower a) (lower b).

Definition chars (s : string) : list ascii := list_ascii_of_string s.

Definition slash : ascii := "/"%char.

(** A path segment: a run of characters without a slash. *)
Definition is_segment (s : string) : Prop := ~ In slash (chars s).

(** A non-empty sequence of decimal digits. *)
Definition digits1 (l : list ascii) : bool :=
  match l with
  | [] => false
  | _ => forallb is_digit l
  end.

Definition is_digits (s : string) : bool := digits1 (chars s).

(** Equality of strings up to the case of ASCII letters. *)
Definition same_ci (a b : string) : Prop :=
  map lower (chars a) = map lower (chars b).

(** The longest prefix of [l] whose characters satisfy [p], and the rest. *)
Fixpoint span (p : ascii -> bool) (l : list ascii) : list ascii * list ascii :=
  match l with
  | [] => ([], [])
  | c :: l' =>
      if p c then let (a, b) := span p l' in (c :: a, b) else ([], l)
  end.

End Chars.

(** ** Express 4 *)

Module Express.
Import Chars.

(** *** Paths

    [router.METHOD(path, ...)] compiles [path] with path-to-regexp 0.1: a
    slash and a literal character stand for themselves, [:key(\d+)] becomes
    the capturing group [(?:(\d+))], the whole is anchored as
    [^ ... \/?$] (the router is not strict, so one trailing slash is
    optional) and the expression gets the [i] flag (the router is not case
    sensitive).  Only the syntax the router file uses is compiled: literal
    segments and parameters with the capture [(\d+)] that fill a segment.
    Anything else is refused with [None]. *)
Inductive Token : Type :=
| Lit (c : ascii)        (* one literal character, compared under the i flag *)
| Digits (key : string). (* the group (?:(\d+)) of the parameter [key] *)

(** The name after a colon: the longest run of [\w] characters. *)
Definition take_key (p : list ascii) : list ascii * list ascii := span is_word p.

(** [strip prefix l]: [l] without its beginning [prefix]. *)
Fixpoint strip (prefix l : list ascii) : option (list ascii) :=
  match prefix with
  | [] => Some l
  | c :: prefix' =>
      match l with
      | x :: l' => if Ascii.eqb c x then strip prefix' l' else None
      | [] => None
      end
  end.

(** What may follow a parameter: the end of the path, or a slash. *)
Definition ends_segment (rest : list ascii) : bool :=
  match rest with
  | [] => true
  | c :: _ => Ascii.eqb c slash
  end.

(** The custom capture of a parameter: only [(\d+)] is compiled, and only
    when the parameter ends its segment. *)
Definition take_capture (p : list ascii) : option (list ascii) :=
  match strip (chars "(\d+)") p with
  | Some rest => if ends_segment rest then Some rest else None
  | None => None
  end.

Definition is_literal (c : ascii) : bool :=
  is_word c || Ascii.eqb c "-"%char || Ascii.eqb c slash.

Fixpoint compile_from (fuel : nat) (p : list ascii) : option (list Token) :=
  match fuel with
  | O => match p with [] => Some [] | _ => None end
  | S fuel' =>
      match p with
      | [] => Some []
      | c :: p' =>
          if Ascii.eqb c ":"%char then
            let (key, after) := take_key p' in
            match key, take_capture after with
            | _ :: _, Some rest =>
                option_map (cons (Digits (string_of_list_ascii key)))
                           (compile_from fuel' rest)
            | _, _ => None
            end
          else if is_literal c
          then option_map (cons (Lit c)) (compile_from fuel' p')
          else None
      end
  end.

(** A path that ends with a slash is anchored in another way
    ([\/?$] replaces its last slash); the router file has none. *)
Definition compile (path : string) : option (list Token) :=
  if Ascii.eqb (last (chars path) "a"%char) slash
  then None
  else compile_from (String.length path) (chars path).

(** The parameters a match captures, by key, in the order of the path. *)
Definition Params : Type := list (string * string).

(** [eat ts s] matches the tokens [ts] at the head of [s] and gives the
    captured parameters and what is left of [s].  A [Digits] group takes the
    longest run of digits: in a compiled path it is followed by a slash or
    by the end of the expression, neither of which accepts a digit, so the
    backtracking of the regular expression to a shorter run never leads to
    a match. *)
Fixpoint eat (ts : list Token) (s : list ascii) : option (Params * list ascii) :=
  match ts with
  | [] => Some ([], s)
  | Lit c :: ts' =>
      match s with
      | x :: s' => if eqb_ci c x then eat ts' s' else None
      | [] => None
      end
  | Digits key :: ts' =>
      match span is_digit s with
      | ([], _) => None
      | (ds, rest) =>
          match eat ts' rest with
          | Some (ps, after) => Some ((key, string_of_list_ascii ds) :: ps, after)
          | None => None
          end
      end
  end.

(** The end of the expression, [\/?$]: nothing is left, or one slash. *)
Definition at_end (s : list ascii) : bool :=
  match s with
  | [] => true
  | [c] => Ascii.eqb c slash
  | _ => false
  end.

(** [exec ts s] runs the compiled expression [^ ts \/?$] on [s]. *)
Definition exec (ts : list Token) (s : list ascii) : option Params :=
  match eat ts s with
  | Some (ps, after) => if at_end after then Some ps else None
  | None => None
  end.

(** [layer.match(path)]: the parameters when the path matches. *)
Definition match_path (pattern path : string) : option Params :=
  match compile pattern with
  | Some ts => exec ts (chars path)
  | None => None
  end.

(** What follows a parameter in a compiled path: the end of the expression
    or a slash. *)
Definition after_param (ts : list Token) : Prop :=
  ts = [] \/ exists ts', ts = Lit slash :: ts'.

(** What follows a segment in a path: the end of the path or a slash. *)
Definition after_segment (s : list ascii) : Prop :=
  s = [] \/ exists s', s = slash :: s'.

(** No path is matched by both expressions. *)
Inductive exclusive (a b : string) : Prop :=
| Exclusive (H : forall s, match_path a s = None \/ match_path b s = None).

(** What the expression [^ ts \/?$] matches, as a regular expression: a
    group [(\d+)] may take any non-empty run of digits. *)
Inductive matches : list Token -> list ascii -> Params -> Prop :=
| matches_end (s : list ascii) :
    at_end s = true -> matches [] s []
| matches_lit (c x : ascii) (ts : list Token) (s : list ascii) (ps : Params) :
    eqb_ci c x = true -> matches ts s ps ->
    matches (Lit c :: ts) (x :: s) ps
| matches_digits (key : string) (ts : list Token) (ds rest : list ascii)
    (ps : Params) :
    digits1 ds = true -> matches ts rest ps ->
    matches (Digits key :: ts) (ds ++ rest) ((key, string_of_list_ascii ds) :: ps).

(** Every parameter ends its segment. *)
Fixpoint segmented (ts : list Token) : bool :=
  match ts with
  | [] => true
  | Lit _ :: ts' => segmented ts'
  | Digits _ :: ts' =>
      match ts' with
      | [] => true
      | Lit c :: _ => Ascii.eqb c slash && segmented ts'
      | Digits _ :: _ => false
      end
  end.

(** *** Routes and handlers *)

(** The methods the router file registers a route for, and HEAD, which
    Express gives to the handlers of GET.  Requests with another method are
    not among the requests of this development: OPTIONS, which the router
    answers itself when a route has the path, is one of them. *)
Inductive Method : Type := GET | HEAD | POST | PUT | PATCH | DELETE.

Definition Method_eqb (a b : Method) : bool :=
  match a, b with
  | GET, GET | HEAD, HEAD | POST, POST | PUT, PUT | PATCH, PATCH
  | DELETE, DELETE => true
  | _, _ => false
  end.

Record Request : Type := { req_method : Method; req_path : string }.

Record Response : Type := { status : nat; body : string }.

(** An error: the object a handler throws or passes to [next]. *)
Inductive Error : Type := error (message : string).

(** What a handler [(req, res, next) => ...] does with its turn: it calls
    [next] with nothing (or with a value that is not truthy, which Express
    reads as nothing), with ['route'], with ['router'] or with an error (a
    thrown exception is caught by the layer and passed to [next] too), or
    it ends the response and calls nothing.  The handlers of the router
    file are taken to be ordinary handlers of three arguments that do one
    of these things once. *)
Inductive Outcome : Type :=
| Next
| NextRoute
| NextRouter
| Fail (err : Error)
| Send (res : Response).

(** How a request leaves the router: a handler answered it, an error went
    to the application's error handling, or the router handed the request
    back unanswered (no route took it: the application answers 404). *)
Inductive Result : Type :=
| Responded (res : Response)
| Errored (err : Error)
| Unhandled.

Section Router.

(** The handlers are functions of other modules; they are known here by
    name.  Their effects (rate-limit counters, the database) live in a
    world that is threaded through the calls. *)
Variable Handler : Type.
Variable World : Type.
Variable behave : Handler -> Request -> Params -> World -> Outcome * World.

(** One [router.METHOD(path, ...handlers)] call. *)
Record Route : Type :=
  { route_method : Method; route_path : string; route_stack : list Handler }.

(** [route._handles_method]: a route without a HEAD handler takes HEAD
    requests as GET. *)
Definition handles_method (r : Route) (m : Method) : bool :=
  match m with
  | HEAD => Method_eqb (route_method r) GET
  | _ => Method_eqb (route_method r) m
  end.

Definition match_route (r : Route) (req : Request) : option Params :=
  if handles_method r (req_method req)
  then match_path (route_path r) (req_path req)
  else None.

(** How the handlers of one route leave it. *)
Inductive Exit : Type :=
| ExitRoute               (* on to the next matching route *)
| ExitRouter              (* next('router') *)
| ExitError (err : Error)
| ExitSent (res : Response).

(** A run: how it ended, the handlers that were called, in the order of
    the calls, and the world afterwards. *)
Record Run (E : Type) : Type :=
  { ending : E; called : list Handler; world : World }.
Arguments ending {E}.
Arguments called {E}.
Arguments world {E}.

Definition and_then {E : Type} (h : Handler) (r : Run E) : Run E :=
  {| ending := ending r; called := h :: called r; world := world r |}.

(** [route.dispatch]: the handlers of the route, one after the other, each
    one only when the one before called [next()] (the specification's
    "middleware chain executes sequentially, each may short-circuit"). *)
Fixpoint dispatch (stack : list Handler) (req : Request) (ps : Params)
    (w : World) : Run Exit :=
  match stack with
  | [] => {| ending := ExitRoute; called := []; world := w |}
  | h :: stack' =>
      let (o, w') := behave h req ps w in
      and_then h
        match o with
        | Next => dispatch stack' req ps w'
        | NextRoute => {| ending := ExitRoute; called := []; world := w' |}
        | NextRouter => {| ending := ExitRouter; called := []; world := w' |}
        | Fail e => {| ending := ExitError e; called := []; world := w' |}
        | Send r => {| ending := ExitSent r; called := []; world := w' |}
        end
  end.

(** [router.handle]: the routes in registration order; the first whose path
    and method match gets the request, and the ones after it only if its
    handlers leave the route with [next]. *)
Fixpoint handle (routes : list Route) (req : Request) (w : World) : Run Result :=
  match routes with
  | [] => {| ending := Unhandled; called := []; world := w |}
  | r :: routes' =>
      match match_route r req with
      | None => handle routes' req w
      | Some ps =>
          let d := dispatch (route_stack r) req ps w in
          match ending d with
          | ExitRoute =>
              let rest := handle routes' req (world d) in
              {| ending := ending rest;
                 called := called d ++ called rest;
                 world := world rest |}
          | ExitRouter =>
              {| ending := Unhandled; called := called d; world := world d |}
          | ExitError e =>
              {| ending := Errored e; called := called d; world := world d |}
          | ExitSent res =>
              {| ending := Responded res; called := called d; world := world d |}
          end
      end
  end.

(** The handlers before [h] all called [next()]: the world in which [h]
    gets its turn. *)
Fixpoint passes (pre : list Handler) (req : Request) (ps : Params)
    (w : World) : option World :=
  match pre with
  | [] => Some w
  | h :: pre' =>
      match behave h req ps w with
      | (Next, w') => passes pre' req ps w'
      | _ => None
      end
  end.

(** What the router makes of the way a route was left, when no later route
    takes the request. *)
Definition conclude (d : Run Exit) : Run Result :=
  {| ending :=
       match ending d with
       | ExitRoute | ExitRouter => Unhandled
       | ExitError e => Errored e
       | ExitSent res => Responded res
       end;
     called := called d;
     world := world d |}.

(** The route does not take the request. *)
Definition no_match (req : Request) (r : Route) : Prop :=
  match_route r req = None.

End Router.

Arguments route_method {Handler}.
Arguments route_path {Handler}.
Arguments route_stack {Handler}.
Arguments handles_method {Handler}.
Arguments match_route {Handler}.
Arguments ending {Handler World E}.
Arguments called {Handler World E}.
Arguments world {Handler World E}.
Arguments dispatch {Handler World}.
Arguments handle {Handler World}.
Arguments passes {Handler World}.
Arguments conclude {Handler World}.
Arguments no_match {Handler}.

(** [express.Router()] and the registration methods the router file calls,
    written so that the table below reads like the chain of calls. *)
Definition Router (Handler : Type) : Type := list (Route Handler).

Definition new_Router {Handler : Type} : Router Handler := [].

Definition register {Handler : Type} (m : Method) (path : string)
    (handlers : list Handler) (router : Router Handler) : Router Handler :=
  router ++ [{| route_method := m; route_path := path; route_stack := handlers |}].

Definition get {Handler : Type} := @register Handler GET.
Definition post {Handler : Type} := @register Handler POST.
Definition put {Handler : Type} := @register Handler PUT.
Definition patch {Handler : Type} := @register Handler PATCH.
Definition delete {Handler : Type} := @register Handler DELETE.

End Express.

(** ** src/app/routers/user.js *)

Module UserRouter.
Import Chars Express.

(** The handlers the file imports from [../controllers] and
    [../middlewares], by their names there. *)
Inductive Handler : Type :=
| rateLimit_updateProfile
| rateLimit_updatePassword
| rateLimit_updateUsername
| rateLimit_updateAvatar
| userMiddleware_checkPermissions
| userMiddleware_checkIfExists
| userController_getInformations
| userController_update
| userController_updatePassword
| userController_updateUsername
| userController_updateAvatar
| userController_delete
| followController_follow
| followController_unfollow
| searchController_searchUserByName.

Notation "r '.>' f" := (f r) (at level 45, left associativity, only parsing).

Definition router : Router Handler :=
  new_Router
  .> get "/:id(\d+)"
       [userMiddleware_checkIfExists; userController_getInformations]
  .> get "/search" [searchController_searchUserByName]
  .> patch "/:id(\d+)/update"
       [rateLimit_updateProfile; userMiddleware_checkPermissions;
        userMiddleware_checkIfExists; userController_update]
  .> patch "/:id(\d+)/update/password"
       [rateLimit_updatePassword; userMiddleware_checkPermissions;
        userMiddleware_checkIfExists; userController_updatePassword]
  .> patch "/:id(\d+)/update/username"
       [rateLimit_updateUsername; userMiddleware_checkPermissions;
        userMiddleware_checkIfExists; userController_updateUsername]
  .> put "/:id(\d+)/update/avatar"
       [rateLimit_updateAvatar; userMiddleware_checkPermissions;
        userMiddleware_checkIfExists; userController_updateAvatar]
  .> delete "/:id(\d+)/delete"
       [userMiddleware_checkPermissions; userMiddleware_checkIfExists;
        userController_delete]
  .> post "/:id(\d+)/follow/:toFollowId(\d+)"
       [userMiddleware_checkPermissions; userMiddleware_checkIfExists;
        followController_follow]
  .> delete "/:id(\d+)/unfollow/:toUnfollowId(\d+)"
       [userMiddleware_checkPermissions; userMiddleware_checkIfExists;
        followController_unfollow].

(** What the paths of the routes on one user compile to at their beginning:
    [/:id(\d+)/], and [/:id(\d+)/update]. *)
Definition id_slash : list Token := [Lit "/"; Digits "id"; Lit "/"].
Definition id_update : list Token :=
  id_slash ++ map Lit (chars "update").

(** The route a call registered, by its method and its path string. *)
Definition find_route (m : Method) (path : string) : option (Route Handler) :=
  find (fun r => Method_eqb (route_method r) m && String.eqb (route_path r) path)
       router.

Definition is_rate_limit (h : Handler) : bool :=
  match h with
  | rateLimit_updateProfile | rateLimit_updatePassword
  | rateLimit_updateUsername | rateLimit_updateAvatar => true
  | _ => false
  end.

(** The four routes that change a profile, each with its rate limiter and
    its controller. *)
Definition profile_mutations : list (Method * string * Handler * Handler) :=
  [ (PATCH, "/:id(\d+)/update",
     rateLimit_updateProfile, userController_update);
    (PATCH, "/:id(\d+)/update/password",
     rateLimit_updatePassword, userController_updatePassword);
    (PATCH, "/:id(\d+)/update/username",
     rateLimit_updateUsername, userController_updateUsername);
    (PUT, "/:id(\d+)/update/avatar",
     rateLimit_updateAvatar, userController_updateAvatar) ].

Definition rate_limited_routes : list (Method * string) :=
  map (fun '(m, path, _, _) => (m, path)) profile_mutations.

Definition request (m : Method) (path : string) : Request :=
  {| req_method := m; req_path := path |}.

Definition Handler_eqb (a b : Handler) : bool :=
  match a, b with
  | rateLimit_updateProfile, rateLimit_updateProfile
  | rateLimit_updatePassword, rateLimit_updatePassword
  | rateLimit_updateUsername, rateLimit_updateUsername
  | rateLimit_updateAvatar, rateLimit_updateAvatar
  | userMiddleware_checkPermissions, userMiddleware_checkPermissions
  | userMiddleware_checkIfExists, userMiddleware_checkIfExists
  | userController_getInformations, userController_getInformations
  | userController_update, userController_update
  | userController_updatePassword, userController_updatePassword
  | userController_updateUsername, userController_updateUsername
  | userController_updateAvatar, userController_updateAvatar
  | userController_delete, userController_delete
  | followController_follow, followController_follow
  | followController_unfollow, followController_unfollow
  | searchController_searchUserByName, searchController_searchUserByName => true
  | _, _ => false
  end.

(** Sample handlers for concrete runs: a world that counts the calls, in
    which every handler calls [next()] except [stop], which answers with
    [res]. *)
Definition stops_at (stop : Handler) (res : Response)
    (h : Handler) (_ : Request) (_ : Params) (calls : nat) : Outcome * nat :=
  (if Handler_eqb h stop then Send res else Next, S calls).

Definition ok : Response := {| status := 200; body := "{}" |}.
Definition forbidden : Response := {| status := 403; body := "{}" |}.

End UserRouter.

(** ** JavaScript values *)

Module Js.

(** The values a caller can pass to [format]: the primitives, and objects
    (a [Date], say) by reference. *)
Inductive Value : Type :=
| Undefined
| Null
| Bool (b : bool)
| Number (n : Z)
| Str (s : string)
| Object (ref : nat).

(** [a === b]: no conversion; two values of different types are never
    equal, and two strings are equal when they have the same characters. *)
Definition strict_equals (a b : Value) : bool :=
  match a, b with
  | Undefined, Undefined => true
  | Null, Null => true
  | Bool x, Bool y => Bool.eqb x y
  | Number x, Number y => Z.eqb x y
  | Str x, Str y => String.eqb x y
  | Object x, Object y => Nat.eqb x y
  | _, _ => false
  end.

(** Whether a value is truthy: [undefined], [null], [false], [0] and the
    empty string are not; every object is. *)
Definition truthy (v : Value) : bool :=
  match v with
  | Undefined | Null => false
  | Bool b => b
  | Number n => negb (Z.eqb n 0)
  | Str s => negb (String.eqb s "")
  | Object _ => true
  end.

(** How a call ends: it returns a value, or it throws. *)
Inductive Exception : Type := TypeError.

Inductive Completion (A : Type) : Type :=
| Return (value : A)
| Throw (exception : Exception).
Arguments Return {A}.
Arguments Throw {A}.

End Js.

(** ** src/app/utils/date.js *)

Module DateUtil.
Import Chars.

(** [hay.includes(needle)], on the characters of the two strings. *)
Fixpoint starts (needle hay : list ascii) : bool :=
  match needle, hay with
  | [], _ => true
  | n :: needle', h :: hay' => Ascii.eqb n h && starts needle' hay'
  | _ :: _, [] => false
  end.

Fixpoint occurs (needle hay : list ascii) : bool :=
  starts needle hay
  || match hay with
     | [] => false
     | _ :: hay' => occurs needle hay'
     end.

Definition includes (hay needle : string) : bool :=
  occurs (chars needle) (chars hay).

(** [lacks a l]: the character [a] is not in [l]. *)
Definition lacks (a : ascii) (l : list ascii) : bool :=
  forallb (fun c => negb (Ascii.eqb c a)) l.

Definition join (pieces : list string) : string :=
  fold_right String.append "" pieces.

(** [String(n).padStart(width, '0')] *)
Definition pad (width n : nat) : string :=
  let s := NilEmpty.string_of_uint (Nat.to_uint n) in
  string_of_list_ascii (repeat "0"%char (width - String.length s)) ++ s.

(** The same for an integer that can be negative: the minus sign is a
    character of [String(n)], and the zeros come before it. *)
Definition pad_int (width : nat) (n : Z) : string :=
  let s := NilEmpty.string_of_int (Z.to_int n) in
  string_of_list_ascii (repeat "0"%char (width - String.length s)) ++ s.

Section Library.

(** *** The dayjs library

    [date.js] calls [dayjs(date)], [.locale(language)] and
    [.format(pattern)].  The library is not part of the repository: how it
    reads a date, which locale pack it selects for a language, the names in
    the packs and the fields the two patterns of [date.js] do not use are
    variables here.  Two things the library does are not left open, because
    [format] shows them to its caller: a date it cannot read gives the
    instance of an invalid date, which prints as Invalid Date (the
    specification, 4.2); and [.locale(preset)] with a preset that is not
    truthy is the getter of the locale name, so that it returns a string
    and not an instance. *)
Variable Locale : Type.
Variable weekdays months : Locale -> list string.

(** An instance: the locale and the fields the getters [year()] (negative
    before the year 0), [month()] (from 0), [date()], [day()] (from 0,
    Sunday), [hour()] and [minute()] give. *)
Record Instance : Type :=
  { locale_of : Locale;
    year : Z; month : nat; date : nat; day : nat;
    hour : nat; minute : nat }.

(** [dayjs(date)] gives an instance; the date it holds can be invalid. *)
Inductive Dayjs : Type :=
| Valid (i : Instance)
| Invalid.

Variable dayjs : Js.Value -> Dayjs.

(** What [.locale(preset)] gives on a valid date for a truthy preset: a
    copy of the instance with the pack the library selects for the
    preset. *)
Variable select : Instance -> Js.Value -> Instance.

(** What [d.locale(preset)] evaluates to: an instance or, from the getter,
    the name of a locale. *)
Inductive Located : Type :=
| An_instance (d : Dayjs)
| A_name.

Definition locale (d : Dayjs) (preset : Js.Value) : Located :=
  if Js.truthy preset
  then An_instance
         match d with
         | Valid i => Valid (select i preset)
         | Invalid => Invalid
         end
  else A_name.

Inductive Token : Type :=
| Weekday_dddd
| Day_DD
| Month_MMMM
| Year_YYYY
| Hour_HH
| Hour_hh
| Minute_mm
| Meridiem_A
| Other (c : ascii) (n : nat)   (* another run of pattern letters *)
| Text (c : ascii).

Variable other : Instance -> ascii -> nat -> string.

(** The runs of equal characters of a pattern, with their lengths. *)
Fixpoint runs (l : list ascii) : list (ascii * nat) :=
  match l with
  | [] => []
  | c :: l' =>
      match runs l' with
      | (c', n) :: rest =>
          if Ascii.eqb c c' then (c, S n) :: rest else (c, 1) :: (c', n) :: rest
      | [] => [(c, 1)]
      end
  end.

(** The characters that begin a token of a dayjs pattern. *)
Definition is_pattern_letter (c : ascii) : bool :=
  existsb (Ascii.eqb c) (chars "YMDdHhmsZSaA[").

(** Modelled from the spec: the tokens of dayjs's [format], which is not
    part of the repository ("full-weekday DD full-month YYYY ... HH:mm",
    24-hour clock; "... hh:mm AM/PM", 12-hour clock).  Every other
    character of a pattern stands for itself. *)
Definition tokens_of_run (c : ascii) (n : nat) : list Token :=
  if is_pattern_letter c then
    match c, n with
    | "d"%char, 4 => [Weekday_dddd]
    | "D"%char, 2 => [Day_DD]
    | "M"%char, 4 => [Month_MMMM]
    | "Y"%char, 4 => [Year_YYYY]
    | "H"%char, 2 => [Hour_HH]
    | "h"%char, 2 => [Hour_hh]
    | "m"%char, 2 => [Minute_mm]
    | "A"%char, 1 => [Meridiem_A]
    | _, _ => [Other c n]
    end
  else repeat (Text c) n.

Definition tokens (pattern : string) : list Token :=
  flat_map (fun '(c, n) => tokens_of_run c n) (runs (chars pattern)).

(** The hour of the 12-hour clock: [hour % 12 || 12]. *)
Definition hour12 (h : nat) : nat :=
  match h mod 12 with
  | 0 => 12
  | k => k
  end.

Definition weekday_name (d : Instance) : string :=
  nth (day d) (weekdays (locale_of d)) "".

Definition month_name (d : Instance) : string :=
  nth (month d) (months (locale_of d)) "".

(** Modelled from the spec: what dayjs's [format] prints for a token (the
    full names of the weekday and the month from the locale pack, the
    numbers padded with zeros, AM before noon and PM from noon on). *)
Definition print (d : Instance) (t : Token) : string :=
  match t with
  | Weekday_dddd => weekday_name d
  | Day_DD => pad 2 (date d)
  | Month_MMMM => month_name d
  | Year_YYYY => pad_int 4 (year d)
  | Hour_HH => pad 2 (hour d)
  | Hour_hh => pad 2 (hour12 (hour d))
  | Minute_mm => pad 2 (minute d)
  | Meridiem_A => if (hour d <? 12)%nat then "AM" else "PM"
  | Other c n => other d c n
  | Text c => String c ""
  end.

(** What a pattern prints for a valid date. *)
Definition render (i : Instance) (pattern : string) : string :=
  join (map (print i) (tokens pattern)).

(** [x.format(pattern)], where [x] is what [.locale(...)] gave: an instance
    prints the pattern, or Invalid Date when its date is invalid; a string
    has no method [format], and the call throws a TypeError. *)
Definition dayjs_format (x : Located) (pattern : string) : Js.Completion string :=
  match x with
  | An_instance (Valid i) => Js.Return (render i pattern)
  | An_instance Invalid => Js.Return "Invalid Date"
  | A_name => Js.Throw Js.TypeError
  end.

(** No weekday or month name of a locale pack contains [word]. *)
Definition names_without (word : string) : Prop :=
  forall (l : Locale) (name : string),
    In name (weekdays l) \/ In name (months l) -> includes name word = false.

(** *** The module's functions *)

Definition format (date language : Js.Value) : Js.Completion string :=
  if Js.strict_equals language (Js.Str "fr")
  then dayjs_format (locale (dayjs date) language) "dddd DD MMMM YYYY à HH:mm"
  else dayjs_format (locale (dayjs date) language) "dddd DD MMMM YYYY, hh:mm A".

(** The module's other function, [getDate: () => Date.now()], is a reading
    of the clock of the host and nothing else; it has no embedding here. *)

End Library.

Arguments locale_of {Locale}.
Arguments year {Locale}.
Arguments month {Locale}.
Arguments date {Locale}.
Arguments day {Locale}.
Arguments hour {Locale}.
Arguments minute {Locale}.
Arguments weekday_name {Locale}.
Arguments month_name {Locale}.
Arguments print {Locale}.
Arguments Valid {Locale}.
Arguments Invalid {Locale}.
Arguments An_instance {Locale}.
Arguments A_name {Locale}.
Arguments locale {Locale}.
Arguments render {Locale}.
Arguments dayjs_format {Locale}.
Arguments names_without {Locale}.
Arguments format {Locale}.

(** *** The two packs [date.js] loads: the English one, which is built
    in, and [dayjs/locale/fr]. *)
Inductive Pack : Type := En | Fr.

Definition pack_weekdays (l : Pack) : list string :=
  match l with
  | En => ["Sunday"; "Monday"; "Tuesday"; "Wednesday"; "Thursday"; "Friday";
           "Saturday"]
  | Fr => ["dimanche"; "lundi"; "mardi"; "mercredi"; "jeudi"; "vendredi";
           "samedi"]
  end.

Definition pack_months (l : Pack) : list string :=
  match l with
  | En => ["January"; "February"; "March"; "April"; "May"; "June"; "July";
           "August"; "September"; "October"; "November"; "December"]
  | Fr => ["janvier"; "février"; "mars"; "avril"; "mai"; "juin"; "juillet";
           "août"; "septembre"; "octobre"; "novembre"; "décembre"]
  end.

(** *** Sample data for concrete runs: a reader of dates that takes [null]
    and the text not a date for invalid dates and reads every other value
    as Wednesday 14 July 2021, 18:05, and a selection of packs that takes
    the French one for fr and for a code that begins with fr and a hyphen,
    in any letter case, and keeps the pack of the instance otherwise. *)
Definition sample_dayjs (date : Js.Value) : Dayjs Pack :=
  match date with
  | Js.Null => Invalid
  | Js.Str "not a date" => Invalid
  | _ =>
      Valid {| locale_of := En; year := 2021%Z; month := 6; date := 14; day := 3;
               hour := 18; minute := 5 |}
  end.

Definition is_french (code : string) : bool :=
  match map lower (chars code) with
  | ["f"%char; "r"%char] => true
  | "f"%char :: "r"%char :: "-"%char :: _ => true
  | _ => false
  end.

Definition sample_select (i : Instance Pack) (preset : Js.Value) : Instance Pack :=
  match preset with
  | Js.Str code =>
      if is_french code
      then {| locale_of := Fr; year := year i; month := month i; date := date i;
              day := day i; hour := hour i; minute := minute i |}
      else i
  | _ => i
  end.

Definition sample_other (_ : Instance Pack) (_ : ascii) (_ : nat) : string := "".

Definition sample_format : Js.Value -> Js.Value -> Js.Completion string :=
  format pack_weekdays pack_months sample_dayjs sample_select sample_other.

End DateUtil.

(** ** Facts about characters and strings *)

Module CharFacts.
Import Chars.

Lemma chars_app (a b : string) : chars (a ++ b) = chars a ++ chars b.
Proof.
  unfold chars. induction a as [|c a IH]; simpl; [reflexivity|].
  now rewrite IH.
Qed.

Lemma string_of_chars (s : string) : string_of_list_ascii (chars s) = s.
Proof. apply string_of_list_ascii_of_string. Qed.

Lemma span_app (p : ascii -> bool) (l : list ascii) :
  forall a b, span p l = (a, b) -> l = a ++ b /\ forallb p a = true.
Proof.
  induction l as [|c l IH]; simpl; intros a b H.
  - inversion H; subst. now split.
  - destruct (p c) eqn:Hc.
    + destruct (span p l) as [a' b'] eqn:Hs. inversion H; subst.
      destruct (IH a' b eq_refl) as [-> Ha]. simpl. now rewrite Hc, Ha.
    + inversion H; subst. now split.
Qed.

Lemma span_stop (p : ascii -> bool) (l : list ascii) :
  forall a c b, span p l = (a, c :: b) -> p c = false.
Proof.
  induction l as [|x l IH]; simpl; intros a c b H.
  - discriminate.
  - destruct (p x) eqn:Hx.
    + destruct (span p l) as [a' b'] eqn:Hs. inversion H; subst.
      eapply IH; reflexivity.
    + inversion H; subst. exact Hx.
Qed.

Lemma span_head (p : ascii -> bool) (x : ascii) (l : list ascii) :
  forall d ds b, span p (x :: l) = (d :: ds, b) -> d = x /\ p x = true.
Proof.
  simpl; intros d ds b H. destruct (p x).
  - destruct (span p l). inversion H; subst. now split.
  - discriminate.
Qed.

(** A run of [p]-characters followed by nothing, or by a character outside
    [p], is what [span] takes. *)
Lemma span_run (p : ascii -> bool) (a rest : list ascii) :
  forallb p a = true ->
  match rest with [] => True | c :: _ => p c = false end ->
  span p (a ++ rest) = (a, rest).
Proof.
  intros Ha Hr. induction a as [|x a IH]; simpl in *.
  - destruct rest as [|c r]; simpl; [reflexivity|]. now rewrite Hr.
  - apply andb_true_iff in Ha as [Hx Ha]. now rewrite Hx, IH.
Qed.

Lemma slash_not_digit : is_digit slash = false.
Proof. reflexivity. Qed.

Lemma eqb_ci_slash (x : ascii) : eqb_ci slash x = true -> x = slash.
Proof.
  destruct x as [[] [] [] [] [] [] [] []]; vm_compute; intro H;
    solve [reflexivity | discriminate H].
Qed.

Lemma eqb_ci_lower (c x : ascii) : eqb_ci c x = true <-> lower x = lower c.
Proof.
  unfold eqb_ci. rewrite Ascii.eqb_eq. split; intro H; now symmetry.
Qed.

Lemma digit_lower (x : ascii) : is_digit x = true -> lower x = x.
Proof.
  destruct x as [[] [] [] [] [] [] [] []]; vm_compute; intro H;
    solve [reflexivity | discriminate H].
Qed.

Lemma digits1_spec (l : list ascii) :
  digits1 l = true <-> l <> [] /\ forallb is_digit l = true.
Proof.
  destruct l as [|c l]; simpl.
  - split; [discriminate | intros [H _]; now destruct H].
  - split; [intro H; split; [discriminate | exact H] | now intros [_ H]].
Qed.

(** A string that is not all digits has a first character that is not one. *)
Lemma forallb_false_split (p : ascii -> bool) (l : list ascii) :
  forallb p l = false ->
  exists a x b, l = a ++ x :: b /\ forallb p a = true /\ p x = false.
Proof.
  induction l as [|c l IH]; simpl; [discriminate|].
  destruct (p c) eqn:Hc; simpl.
  - intro H. destruct (IH H) as (a & x & b & -> & Ha & Hx).
    exists (c :: a), x, b. simpl. now rewrite Hc, Ha.
  - intros _. now exists [], c, l.
Qed.

End CharFacts.

(** ** Facts about the Express model *)

Module ExpressFacts.
Import Chars CharFacts Express.

(** *** Matching *)

Lemma exec_lit (c x : ascii) (ts : list Token) (s : list ascii) :
  exec (Lit c :: ts) (x :: s) = if eqb_ci c x then exec ts s else None.
Proof. unfold exec; simpl. now destruct (eqb_ci c x). Qed.

Lemma exec_lit_nil (c : ascii) (ts : list Token) : exec (Lit c :: ts) [] = None.
Proof. reflexivity. Qed.

Lemma exec_end (s : list ascii) : exec [] s = if at_end s then Some [] else None.
Proof. reflexivity. Qed.

Lemma exec_digits (key : string) (ts : list Token) (s : list ascii) :
  exec (Digits key :: ts) s =
  match span is_digit s with
  | ([], _) => None
  | (ds, rest) =>
      option_map (cons (key, string_of_list_ascii ds)) (exec ts rest)
  end.
Proof.
  unfold exec; simpl. destruct (span is_digit s) as [[|d ds] rest]; [reflexivity|].
  destruct (eat ts rest) as [[ps after]|]; [|reflexivity].
  now destruct (at_end after).
Qed.

Lemma exec_reject (ts : list Token) (x : ascii) (s : list ascii) :
  after_param ts -> x <> slash -> exec ts (x :: s) = None.
Proof.
  intros [-> | [ts' ->]] Hx.
  - rewrite exec_end. simpl. destruct s; [|reflexivity].
    destruct (Ascii.eqb x slash) eqn:E; [|reflexivity].
    apply Ascii.eqb_eq in E. contradiction.
  - rewrite exec_lit. destruct (eqb_ci slash x) eqn:E; [|reflexivity].
    apply eqb_ci_slash in E. contradiction.
Qed.

(** A parameter [:key(\d+)] against a path segment: the segment is taken
    whole when it is a non-empty run of digits, and nothing matches
    otherwise. *)
Lemma exec_digits_segment (key : string) (ts : list Token) (n rest : list ascii) :
  ~ In slash n -> after_segment rest -> after_param ts ->
  exec (Digits key :: ts) (n ++ rest) =
  if digits1 n
  then option_map (cons (key, string_of_list_ascii n)) (exec ts rest)
  else None.
Proof.
  intros Hn Hrest Hts. rewrite exec_digits.
  destruct (forallb is_digit n) eqn:Hall.
  - rewrite span_run; [| exact Hall |].
    + destruct n as [|d n]; [reflexivity|].
      unfold digits1. now rewrite Hall.
    + destruct Hrest as [-> | [r ->]]; [exact I | exact slash_not_digit].
  - assert (Hd : digits1 n = false).
    { destruct n; [reflexivity | exact Hall]. }
    rewrite Hd.
    destruct (forallb_false_split _ _ Hall) as (a & x & b & -> & Ha & Hx).
    rewrite <- app_assoc. simpl.
    rewrite span_run; [| exact Ha | exact Hx].
    destruct a as [|d a]; [reflexivity|].
    rewrite exec_reject; [reflexivity | exact Hts |].
    intros ->. apply Hn. apply in_or_app. right. now left.
Qed.

(** A run of literal characters matches the characters that are the same
    up to case. *)
Lemma exec_literals (lits s : list ascii) :
  exec (map Lit lits) s <> None <->
  map lower s = map lower lits \/ map lower s = map lower lits ++ [slash].
Proof.
  revert s. induction lits as [|c lits IH]; intro s; simpl.
  - rewrite exec_end. destruct s as [|x [|y s]]; simpl.
    + split; [now left | discriminate].
    + destruct (Ascii.eqb x slash) eqn:E.
      * apply Ascii.eqb_eq in E; subst. split; [now right | discriminate].
      * split; [congruence|]. intros [H | H]; [discriminate|].
        exfalso. inversion H as [Hx]. apply Ascii.eqb_neq in E. apply E.
        apply eqb_ci_slash. apply eqb_ci_lower. exact Hx.
    + split; [congruence | intros [H | H]; discriminate].
  - destruct s as [|x s]; simpl.
    + rewrite exec_lit_nil. split; [congruence | intros [H | H]; discriminate].
    + rewrite exec_lit. destruct (eqb_ci c x) eqn:E.
      * apply eqb_ci_lower in E. rewrite IH, E.
        split; (intros [H | H]; [left | right]); congruence.
      * split; [congruence|]. intros [H | H]; exfalso;
          inversion H as [[Hx Hs]]; apply eqb_ci_lower in Hx; congruence.
Qed.

(** *** The function and the regular expression *)

Lemma exec_sound (ts : list Token) :
  forall s ps, exec ts s = Some ps -> matches ts s ps.
Proof.
  induction ts as [|[c | key] ts IH]; intros s ps H.
  - rewrite exec_end in H. destruct (at_end s) eqn:E; [|discriminate].
    injection H as <-. now constructor.
  - destruct s as [|x s]; [discriminate|]. rewrite exec_lit in H.
    destruct (eqb_ci c x) eqn:E; [|discriminate]. constructor; auto.
  - rewrite exec_digits in H.
    destruct (span is_digit s) as [[|d ds] rest] eqn:Hs; [discriminate|].
    destruct (exec ts rest) as [qs|] eqn:E; [|discriminate].
    injection H as <-. apply span_app in Hs as [-> Hd].
    constructor; [exact Hd | now apply IH].
Qed.

Lemma matches_after_param (ts : list Token) (s : list ascii) (ps : Params) :
  after_param ts -> matches ts s ps ->
  match s with [] => True | c :: _ => is_digit c = false end.
Proof.
  intros [-> | [ts' ->]] H; inversion H; subst.
  - destruct s as [|c [|c' s]]; try exact I; try discriminate.
    simpl in H0. apply Ascii.eqb_eq in H0. now subst.
  - match goal with E : eqb_ci slash _ = true |- _ => apply eqb_ci_slash in E end.
    now subst.
Qed.

Lemma segmented_after_param (key : string) (ts : list Token) :
  segmented (Digits key :: ts) = true -> after_param ts /\ segmented ts = true.
Proof.
  simpl. destruct ts as [|[c | k] ts]; try discriminate.
  - intros _. split; [now left | reflexivity].
  - intro H. apply andb_true_iff in H as [Hc Hts].
    apply Ascii.eqb_eq in Hc. subst. split; [right; eauto | exact Hts].
Qed.

Lemma exec_complete (ts : list Token) (s : list ascii) (ps : Params) :
  segmented ts = true -> matches ts s ps -> exec ts s = Some ps.
Proof.
  intros Hwf H. induction H as [s E | c x ts s ps E H IH | key ts ds rest ps Hd H IH].
  - rewrite exec_end. now rewrite E.
  - rewrite exec_lit, E. now apply IH.
  - apply segmented_after_param in Hwf as [Hafter Hwf].
    rewrite exec_digits. apply digits1_spec in Hd as [Hne Hd].
    rewrite span_run; [| exact Hd | exact (matches_after_param _ _ _ Hafter H)].
    destruct ds; [contradiction|]. now rewrite (IH Hwf).
Qed.

Lemma take_capture_ends (p rest : list ascii) :
  take_capture p = Some rest -> ends_segment rest = true.
Proof.
  unfold take_capture. destruct (strip _ p) as [r|]; [|discriminate].
  destruct (ends_segment r) eqn:E; [|discriminate]. now intros [= <-].
Qed.

Lemma compile_from_segmented (fuel : nat) :
  forall p ts, compile_from fuel p = Some ts ->
  segmented ts = true /\ (ends_segment p = true -> after_param ts).
Proof.
  induction fuel as [|fuel IH]; intros p ts H.
  - destruct p; [|discriminate]. injection H as <-. split; [reflexivity | now left].
  - destruct p as [|c p]; [injection H as <-; split; [reflexivity | now left]|].
    cbn [compile_from] in H.
    destruct (Ascii.eqb c ":") eqn:Ec.
    + destruct (take_key p) as [key after].
      destruct key as [|k key]; [discriminate|].
      destruct (take_capture after) as [rest|] eqn:Hcap; [|discriminate].
      destruct (compile_from fuel rest) as [ts'|] eqn:Hrest; [|discriminate].
      injection H as <-. destruct (IH _ _ Hrest) as [Hseg Hafter].
      apply take_capture_ends in Hcap. split.
      * cbn [segmented]. destruct (Hafter Hcap) as [-> | [t ->]]; [reflexivity|].
        cbn [segmented] in Hseg |- *. now rewrite Ascii.eqb_refl.
      * cbn [ends_segment]. intro E. apply Ascii.eqb_eq in Ec, E.
        subst c. discriminate E.
    + destruct (is_literal c); [|discriminate].
      destruct (compile_from fuel p) as [ts'|] eqn:Hp; [|discriminate].
      injection H as <-. destruct (IH _ _ Hp) as [Hseg _].
      split; [exact Hseg|]. cbn [ends_segment]. intro E.
      apply Ascii.eqb_eq in E. subst c. right. eauto.
Qed.

(** On a compiled path, [exec] decides the regular expression. *)
Lemma exec_matches (path : string) (ts : list Token) (s : list ascii) (ps : Params) :
  compile path = Some ts -> (exec ts s = Some ps <-> matches ts s ps).
Proof.
  intro Hc. split; [apply exec_sound|]. apply exec_complete.
  unfold compile in Hc.
  destruct (Ascii.eqb (last (chars path) "a"%char) slash); [discriminate|].
  now apply compile_from_segmented in Hc.
Qed.

(** *** Paths that exclude each other *)

Lemma exclusive_sym (a b : string) : exclusive a b -> exclusive b a.
Proof. intros [H]. constructor. intro s. destruct (H s); [now right | now left]. Qed.

Lemma eat_app (a b : list Token) :
  forall s,
  eat (a ++ b) s =
  match eat a s with
  | Some (ps, r) =>
      match eat b r with
      | Some (qs, r') => Some (ps ++ qs, r')
      | None => None
      end
  | None => None
  end.
Proof.
  induction a as [|t a IH]; intro s; simpl.
  - now destruct (eat b s) as [[qs r']|].
  - destruct t as [c | key].
    + destruct s as [|x s]; [reflexivity|].
      destruct (eqb_ci c x); [apply IH | reflexivity].
    + destruct (span is_digit s) as [[|d ds] rest]; [reflexivity|].
      rewrite IH. destruct (eat a rest) as [[ps r]|]; [|reflexivity].
      now destruct (eat b r) as [[qs r']|].
Qed.

Lemma exec_app (a b : list Token) (s : list ascii) :
  exec (a ++ b) s =
  match eat a s with
  | Some (ps, r) => option_map (app ps) (exec b r)
  | None => None
  end.
Proof.
  unfold exec. rewrite eat_app. destruct (eat a s) as [[ps r]|]; [|reflexivity].
  destruct (eat b r) as [[qs r']|]; [|reflexivity]. now destruct (at_end r').
Qed.

(** Two expressions that go on with different letters after a common
    beginning. *)
Lemma diverge_lit (a : list Token) (c c' : ascii) (t t' : list Token)
    (s : list ascii) :
  lower c <> lower c' ->
  exec (a ++ Lit c :: t) s = None \/ exec (a ++ Lit c' :: t') s = None.
Proof.
  intro Hc. rewrite !exec_app. destruct (eat a s) as [[ps r]|]; [|now left].
  destruct r as [|x r]; [now left|]. rewrite !exec_lit.
  destruct (eqb_ci c x) eqn:E; [|now left].
  destruct (eqb_ci c' x) eqn:E'; [|now right].
  apply eqb_ci_lower in E, E'. congruence.
Qed.

(** An expression and one that goes on with a further segment. *)
Lemma diverge_end (a : list Token) (c : ascii) (t : list Token) (s : list ascii) :
  exec a s = None \/ exec (a ++ Lit slash :: Lit c :: t) s = None.
Proof.
  rewrite exec_app. unfold exec at 1.
  destruct (eat a s) as [[ps r]|]; [|now left].
  destruct (at_end r) eqn:E; [right | now left].
  destruct r as [|x [|y r]]; simpl in E; try discriminate; [reflexivity|].
  rewrite exec_lit. now destruct (eqb_ci slash x).
Qed.

(** A parameter and a letter after a common beginning. *)
Lemma diverge_digits (a : list Token) (key : string) (c : ascii)
    (t t' : list Token) (s : list ascii) :
  is_digit (lower c) = false ->
  exec (a ++ Digits key :: t) s = None \/ exec (a ++ Lit c :: t') s = None.
Proof.
  intro Hc. rewrite !exec_app. destruct (eat a s) as [[ps r]|]; [|now left].
  destruct r as [|x r]; [now right|]. rewrite exec_lit, exec_digits.
  destruct (span is_digit (x :: r)) as [[|d ds] rest] eqn:Hs; [now left|].
  destruct (eqb_ci c x) eqn:E; [|now right].
  apply span_head in Hs as [_ Hx]. apply eqb_ci_lower in E.
  rewrite <- E, digit_lower in Hc by exact Hx. congruence.
Qed.

(** *** Running the handlers *)

Section Running.

Context {Handler World : Type}.
Variable behave : Handler -> Request -> Params -> World -> Outcome * World.

(** The handlers a route calls are an initial part of its stack, in the
    order of the stack. *)
Lemma dispatch_called_prefix (stack : list Handler) (req : Request) (ps : Params) :
  forall w, exists rest, stack = called (dispatch behave stack req ps w) ++ rest.
Proof.
  induction stack as [|h stack IH]; intro w; simpl.
  - now exists [].
  - destruct (behave h req ps w) as [o w'].
    destruct o; simpl; try (now exists stack).
    destruct (IH w') as [rest Hrest]. exists rest. now rewrite <- Hrest.
Qed.

(** While the handlers call [next()], the route goes on with the rest of
    its stack. *)
Lemma dispatch_passes (pre post : list Handler) (req : Request) (ps : Params) :
  forall w w', passes behave pre req ps w = Some w' ->
  dispatch behave (pre ++ post) req ps w =
  let d := dispatch behave post req ps w' in
  {| ending := ending d; called := pre ++ called d; world := world d |}.
Proof.
  induction pre as [|h pre IH]; simpl; intros w w' H.
  - inversion H; subst. now destruct (dispatch behave post req ps w').
  - destruct (behave h req ps w) as [o w1]. destruct o; try discriminate.
    now rewrite (IH _ _ H).
Qed.

(** A handler is called only after every handler before it in the stack
    called [next()]. *)
Lemma dispatch_called_passes (stack : list Handler) (req : Request) (ps : Params) :
  forall w pre h post,
  called (dispatch behave stack req ps w) = pre ++ h :: post ->
  exists w', passes behave pre req ps w = Some w'.
Proof.
  induction stack as [|x stack IH]; simpl; intros w pre h post H.
  - now destruct pre.
  - destruct (behave x req ps w) as [o w1] eqn:Hx. simpl in H.
    destruct pre as [|y pre]; simpl.
    + now exists w.
    + inversion H as [[Hy Hrest]]. subst y. rewrite Hx.
      destruct o; simpl in Hrest; try (now destruct pre).
      eapply IH. exact Hrest.
Qed.

Lemma handle_skip (before rest : list (Route Handler)) (req : Request) (w : World) :
  Forall (no_match req) before ->
  handle behave (before ++ rest) req w = handle behave rest req w.
Proof.
  induction 1 as [|r before Hr _ IH]; simpl; [reflexivity|].
  unfold no_match in Hr. now rewrite Hr.
Qed.

Lemma handle_no_match (routes : list (Route Handler)) (req : Request) (w : World) :
  Forall (no_match req) routes ->
  handle behave routes req w =
  {| ending := Unhandled; called := []; world := w |}.
Proof.
  intro H. rewrite <- (app_nil_r routes). now rewrite handle_skip.
Qed.

(** When one route alone matches the request, the router runs the handlers
    of that route and nothing else. *)
Lemma handle_only (before after : list (Route Handler)) (r : Route Handler)
    (req : Request) (ps : Params) (w : World) :
  Forall (no_match req) before -> Forall (no_match req) after ->
  match_route r req = Some ps ->
  handle behave (before ++ r :: after) req w =
  conclude (dispatch behave (route_stack r) req ps w).
Proof.
  intros Hb Ha Hr. rewrite handle_skip by exact Hb. simpl. rewrite Hr.
  unfold conclude.
  destruct (dispatch behave (route_stack r) req ps w) as [e c w']; simpl.
  destruct e; try reflexivity.
  rewrite handle_no_match by exact Ha. simpl. now rewrite app_nil_r.
Qed.

Lemma called_conclude (d : Run Handler World Exit) :
  called (conclude d) = called d.
Proof. reflexivity. Qed.

Lemma dispatch_called_first (h : Handler) (stack : list Handler)
    (req : Request) (ps : Params) (w : World) :
  exists rest, called (dispatch behave (h :: stack) req ps w) = h :: rest.
Proof.
  simpl. destruct (behave h req ps w) as [o w']. simpl. eauto.
Qed.

(** A handler is called only after all the handlers before it in the stack
    called [next()]. *)
Lemma dispatch_called_after (pre post : list Handler) (h : Handler)
    (req : Request) (ps : Params) :
  ~ In h pre ->
  forall w,
  In h (called (dispatch behave (pre ++ h :: post) req ps w)) ->
  exists w', passes behave pre req ps w = Some w'.
Proof.
  induction pre as [|x pre IH]; intros Hpre w Hin.
  - now exists w.
  - simpl in *. destruct (behave x req ps w) as [o w1]. simpl in Hin.
    destruct Hin as [Hx | Hin]; [exfalso; apply Hpre; now left|].
    destruct o; simpl in Hin; try contradiction.
    apply IH; [|exact Hin]. intro H. apply Hpre. now right.
Qed.

(** The handlers that are called all called [next()], except the last. *)
Lemma dispatch_called_all_pass (stack : list Handler) (req : Request) (ps : Params) :
  forall w pre h,
  called (dispatch behave stack req ps w) = pre ++ [h] ->
  exists w', passes behave pre req ps w = Some w'.
Proof. intros w pre h H. eapply dispatch_called_passes. exact H. Qed.

(** The handler that ends the response, or passes an error on, is the last
    one the route calls. *)
Lemma dispatch_stops (pre post : list Handler) (h : Handler) (req : Request)
    (ps : Params) (w w' w'' : World) (o : Outcome) :
  passes behave pre req ps w = Some w' ->
  behave h req ps w' = (o, w'') ->
  o <> Next ->
  dispatch behave (pre ++ h :: post) req ps w =
  {| ending :=
       match o with
       | Next | NextRoute => ExitRoute
       | NextRouter => ExitRouter
       | Fail e => ExitError e
       | Send res => ExitSent res
       end;
     called := pre ++ [h];
     world := w'' |}.
Proof.
  intros Hpre Hh Ho. rewrite (dispatch_passes _ _ _ _ _ _ Hpre). simpl.
  rewrite Hh. destruct o; simpl; try reflexivity. now destruct Ho.
Qed.

(** A handler is called when all the handlers before it called [next()]. *)
Lemma dispatch_passes_called (pre post : list Handler) (h : Handler)
    (req : Request) (ps : Params) (w w' : World) :
  passes behave pre req ps w = Some w' ->
  In h (called (dispatch behave (pre ++ h :: post) req ps w)).
Proof.
  intro Hpre. rewrite (dispatch_passes _ _ _ _ _ _ Hpre). cbn [called].
  apply in_or_app. right.
  destruct (dispatch_called_first h post req ps w') as [rest ->]. now left.
Qed.

(** When all the handlers before the last called [next()], the whole stack
    is called, in its order. *)
Lemma dispatch_passes_all (pre : list Handler) (h : Handler)
    (req : Request) (ps : Params) (w w' : World) :
  passes behave pre req ps w = Some w' ->
  called (dispatch behave (pre ++ [h]) req ps w) = pre ++ [h].
Proof.
  intro Hpre. rewrite (dispatch_passes _ _ _ _ _ _ Hpre). cbn [called dispatch].
  destruct (behave h req ps w') as [o w'']. now destruct o.
Qed.

Lemma no_match_other_method (r r' : Route Handler) (req : Request) (ps : Params) :
  Method_eqb (route_method r) (route_method r') = false ->
  match_route r req = Some ps -> no_match req r'.
Proof.
  unfold no_match, match_route, handles_method. intros Hm Hr.
  destruct (req_method req), (route_method r), (route_method r');
    simpl in *; solve [reflexivity | discriminate].
Qed.

Lemma no_match_other_path (r r' : Route Handler) (req : Request) (ps : Params) :
  exclusive (route_path r) (route_path r') ->
  match_route r req = Some ps -> no_match req r'.
Proof.
  unfold no_match, match_route. intros [Hx] Hr.
  destruct (handles_method r (req_method req)); [|discriminate].
  destruct (Hx (req_path req)) as [H | H]; [congruence|].
  rewrite H. now destruct (handles_method r' (req_method req)).
Qed.

End Running.

End ExpressFacts.

(** ** Facts about the user router *)

Module UserRouterFacts.
Import Chars CharFacts Express ExpressFacts UserRouter.

Ltac compile_paths :=
  unfold match_path;
  repeat match goal with
  | |- context [compile ?p] =>
      let t := eval vm_compute in (compile p) in
      change (compile p) with t
  end;
  cbv beta iota.

Lemma detail_search : exclusive "/:id(\d+)" "/search".
Proof.
  constructor. intro s. compile_paths. apply (diverge_digits [Lit "/"]). reflexivity.
Qed.

Lemma update_password : exclusive "/:id(\d+)/update" "/:id(\d+)/update/password".
Proof. constructor. intro s. compile_paths. apply (diverge_end id_update). Qed.

Lemma update_username : exclusive "/:id(\d+)/update" "/:id(\d+)/update/username".
Proof. constructor. intro s. compile_paths. apply (diverge_end id_update). Qed.

Lemma password_username :
  exclusive "/:id(\d+)/update/password" "/:id(\d+)/update/username".
Proof.
  constructor. intro s. compile_paths. apply (diverge_lit (id_update ++ [Lit "/"])).
  vm_compute. discriminate.
Qed.

Lemma delete_unfollow :
  exclusive "/:id(\d+)/delete" "/:id(\d+)/unfollow/:toUnfollowId(\d+)".
Proof.
  constructor. intro s. compile_paths. apply (diverge_lit id_slash). vm_compute. discriminate.
Qed.

Create HintDb routes.
#[local] Hint Resolve detail_search update_password update_username
  password_username delete_unfollow : routes.
#[local] Hint Resolve exclusive_sym : routes.

Ltac other_route Hr :=
  first [ eapply no_match_other_method; [ | exact Hr]; reflexivity
        | eapply no_match_other_path; [ | exact Hr];
          cbn [route_path]; auto with routes ].
Ltac other_routes Hr :=
  repeat (apply Forall_cons; [other_route Hr|]); apply Forall_nil.
Ltac alone n Hr :=
  let b := eval vm_compute in (firstn n router) in
  let a := eval vm_compute in (skipn (S n) router) in
  exists b, a; split; [reflexivity | split; other_routes Hr].

Lemma router_alone (req : Request) (r : Route Handler) (ps : Params) :
  In r router -> match_route r req = Some ps ->
  exists before after,
    router = before ++ r :: after /\
    Forall (no_match req) before /\ Forall (no_match req) after.
Proof.
  intros Hin Hr. vm_compute in Hin.
  destruct Hin as [<- | [<- | [<- | [<- | [<- | [<- | [<- | [<- | [<- | []]]]]]]]]].
  - alone 0 Hr.
  - alone 1 Hr.
  - alone 2 Hr.
  - alone 3 Hr.
  - alone 4 Hr.
  - alone 5 Hr.
  - alone 6 Hr.
  - alone 7 Hr.
  - alone 8 Hr.
Qed.

Lemma handle_router {World : Type}
    (behave : Handler -> Request -> Params -> World -> Outcome * World)
    (req : Request) (r : Route Handler) (ps : Params) (w : World) :
  In r router -> match_route r req = Some ps ->
  handle behave router req w =
  conclude (dispatch behave (route_stack r) req ps w).
Proof.
  intros Hin Hr.
  destruct (router_alone req r ps Hin Hr) as (before & after & -> & Hb & Ha).
  now apply handle_only.
Qed.

Lemma find_route_In (m : Method) (path : string) (r : Route Handler) :
  find_route m path = Some r -> In r router.
Proof. intro H. apply find_some in H. apply H. Qed.

Ltac not_in := simpl; intuition discriminate.



(** *** Paths of one and of two segments *)

Ltac lit_step :=
  rewrite exec_lit;
  match goal with
  | |- context [eqb_ci ?c ?x] =>
      let v := eval vm_compute in (eqb_ci c x) in
      change (eqb_ci c x) with v
  end;
  cbv iota.

Lemma has_nondigit (n : string) :
  (exists c, In c (chars n) /\ is_digit c = false) -> is_digits n = false.
Proof.
  intros (c & Hin & Hc). unfold is_digits.
  destruct (digits1 (chars n)) eqn:E; [|reflexivity].
  apply digits1_spec in E as [_ E]. rewrite forallb_forall in E.
  rewrite (E c Hin) in Hc. discriminate.
Qed.

Lemma match_detail (n : string) :
  is_segment n ->
  match_path "/:id(\d+)" ("/" ++ n) =
  if is_digits n then Some [("id", n)] else None.
Proof.
  intro Hn. compile_paths.
  change (chars ("/" ++ n)) with (slash :: chars n).
  lit_step. rewrite <- (app_nil_r (chars n)).
  rewrite exec_digits_segment; [| exact Hn | now left | now left].
  rewrite string_of_chars. reflexivity.
Qed.

Lemma match_search (n : string) :
  is_segment n ->
  match_path "/search" ("/" ++ n) <> None <-> same_ci n "search".
Proof.
  intro Hn. compile_paths.
  change (chars ("/" ++ n)) with (slash :: chars n).
  change [Lit "/"; Lit "s"; Lit "e"; Lit "a"; Lit "r"; Lit "c"; Lit "h"]
    with (map Lit (chars "/search")).
  rewrite exec_literals. unfold same_ci. split.
  - intros [H | H]; [now inversion H|].
    exfalso. apply Hn.
    assert (Hs : map lower (chars n) = map lower (chars "search") ++ [slash])
      by now inversion H.
    apply map_eq_app in Hs as (l1 & l2 & Hsplit & _ & Hl2).
    destruct l2 as [|c [|c' l2]]; try discriminate.
    injection Hl2 as Hc. rewrite Hsplit. apply in_or_app. right. left.
    apply eqb_ci_slash. apply eqb_ci_lower. exact Hc.
  - intro H. left. simpl. now rewrite H.
Qed.

Lemma match_two_segments (word key : string) (a b : string) :
  is_segment a -> is_segment b ->
  exec ([Lit slash; Digits "id"; Lit slash] ++ map Lit (chars word)
        ++ [Lit slash; Digits key])
       (chars ("/" ++ a ++ "/" ++ word ++ "/" ++ b)) =
  if is_digits a && is_digits b then Some [("id", a); (key, b)] else None.
Proof.
  intros Ha Hb.
  change (chars ("/" ++ a ++ "/" ++ word ++ "/" ++ b))
    with (slash :: chars (a ++ "/" ++ word ++ "/" ++ b)).
  rewrite chars_app.
  change (chars ("/" ++ word ++ "/" ++ b))
    with (slash :: chars (word ++ "/" ++ b)).
  rewrite chars_app.
  change (chars ("/" ++ b)) with (slash :: chars b).
  cbn [app]. lit_step.
  rewrite exec_digits_segment; [| exact Ha | right; eauto | right; eauto].
  rewrite string_of_chars. unfold is_digits at 1.
  destruct (digits1 (chars a)); [|reflexivity]. cbn [andb].
  rewrite exec_lit.
  replace (eqb_ci slash slash) with true by reflexivity.
  assert (Hword : forall l ts,
    exec (map Lit l ++ ts) (l ++ slash :: chars b) = exec ts (slash :: chars b)).
  { induction l as [|c l IH]; intro ts; simpl; [reflexivity|].
    rewrite exec_lit. unfold eqb_ci. now rewrite Ascii.eqb_refl. }
  rewrite Hword, exec_lit.
  replace (eqb_ci slash slash) with true by reflexivity.
  rewrite <- (app_nil_r (chars b)).
  rewrite exec_digits_segment; [| exact Hb | now left | now left].
  rewrite string_of_chars. unfold is_digits.
  now destruct (digits1 (chars b)).
Qed.

Ltac the_route H := vm_compute in H; injection H as <-.

(** C3, as the code has it.  For a path segment [n], GET /n matches the
    user-detail route if and only if [n] is a non-empty sequence of decimal
    digits.  When [n] contains a character that is not a digit, the detail
    route does not match; the request then leaves the router unanswered
    (the 404 of the application) unless [n] is the word search in any
    letter case, which the search route registered after it matches. *)
Theorem detail_route_matches_digit_segments
    (n : string) (detail : Route Handler) :
  find_route GET "/:id(\d+)" = Some detail ->
  is_segment n ->
  let req := request GET ("/" ++ n) in
  (match_route detail req <> None <-> is_digits n = true) /\
  ((exists c, In c (chars n) /\ is_digit c = false) ->
   match_route detail req = None /\
   (same_ci n "search" ->
    exists search,
      find_route GET "/search" = Some search /\ match_route search req <> None) /\
   (~ same_ci n "search" ->
    forall (World : Type)
           (behave : Handler -> Request -> Params -> World -> Outcome * World)
           (w : World),
    handle behave router req w =
    {| ending := Unhandled; called := []; world := w |})).
Proof.
  intros Hdetail Hn req. the_route Hdetail.
  assert (Hd : match_route
                 {| route_method := GET; route_path := "/:id(\d+)";
                    route_stack := [userMiddleware_checkIfExists;
                                    userController_getInformations] |} req
               = if is_digits n then Some [("id", n)] else None)
    by exact (match_detail n Hn).
  assert (Hs : match_route
                 {| route_method := GET; route_path := "/search";
                    route_stack := [searchController_searchUserByName] |} req
               <> None <-> same_ci n "search")
    by exact (match_search n Hn).
  split.
  - rewrite Hd. destruct (is_digits n); split; congruence.
  - intro Hc. apply has_nondigit in Hc. rewrite Hd, Hc.
    split; [reflexivity|]. split.
    + intro Hci. eexists. split; [reflexivity|]. now apply Hs.
    + intros Hci World behave w. apply handle_no_match.
      change router with
        ({| route_method := GET; route_path := "/:id(\d+)";
            route_stack := [userMiddleware_checkIfExists;
                            userController_getInformations] |}
         :: {| route_method := GET; route_path := "/search";
               route_stack := [searchController_searchUserByName] |}
         :: skipn 2 router).
      apply Forall_cons; [unfold no_match; now rewrite Hd, Hc|].
      apply Forall_cons.
      { unfold no_match.
        destruct (match_route _ req) eqn:E in |- *; [|reflexivity].
        exfalso. apply Hci, Hs. rewrite E. discriminate. }
      vm_compute skipn.
      repeat (apply Forall_cons; [reflexivity|]). apply Forall_nil.
Qed.

Lemma detail_route_matches_digit_segments_witness :
  is_segment "42" /\ is_segment "4x2" /\
  (exists c, In c (chars "4x2") /\ is_digit c = false) /\
  exists detail,
    find_route GET "/:id(\d+)" = Some detail /\
    (match_route detail (request GET "/42") <> None <-> is_digits "42" = true) /\
    match_route detail (request GET "/4x2") = None /\
    handle (stops_at userController_getInformations ok) router
           (request GET "/4x2") 0
    = {| ending := Unhandled; called := []; world := 0 |}.
Proof.
  assert (H42 : is_segment "42") by (vm_compute; intuition discriminate).
  assert (H4x2 : is_segment "4x2") by (vm_compute; intuition discriminate).
  assert (Hx : exists c, In c (chars "4x2") /\ is_digit c = false)
    by (exists "x"%char; split; [simpl; auto | reflexivity]).
  assert (Hnot : ~ same_ci "4x2" "search") by (vm_compute; discriminate).
  split; [exact H42|]. split; [exact H4x2|]. split; [exact Hx|].
  eexists. split; [reflexivity|].
  split; [exact (proj1 (detail_route_matches_digit_segments "42" _ eq_refl H42))|].
  destruct (proj2 (detail_route_matches_digit_segments "4x2" _ eq_refl H4x2) Hx)
    as (Hnone & _ & Hfall).
  split; [exact Hnone|].
  exact (Hfall Hnot nat (stops_at userController_getInformations ok) 0).
Defined.

(** The claim C3 as it is written fails at the segment search: it has
    characters that are not digits, the detail route does not match
    GET /search, and yet the request does not fall through: the search
    handler answers it. *)
Lemma detail_fallthrough_counterexample :
  is_segment "search" /\
  (exists c, In c (chars "search") /\ is_digit c = false) /\
  ending (handle (stops_at searchController_searchUserByName ok) router
                 (request GET "/search") 0) = Responded ok /\
  ending (handle (stops_at searchController_searchUserByName ok) router
                 (request GET "/search") 0) <> Unhandled.
Proof.
  split; [vm_compute; intuition discriminate|].
  split; [exists "s"%char; split; [simpl; auto | reflexivity]|].
  split; [reflexivity | vm_compute; discriminate].
Qed.

(** C4.  For path segments [a] and [b], POST /a/follow/b matches the follow
    route, and DELETE /a/unfollow/b the unfollow route, if and only if both
    [a] and [b] are non-empty sequences of decimal digits; the match then
    captures them as the two parameters, and there is no match when either
    has a character that is not a digit. *)
Theorem follow_unfollow_match_digit_segments
    (a b : string) (follow unfollow : Route Handler) :
  find_route POST "/:id(\d+)/follow/:toFollowId(\d+)" = Some follow ->
  find_route DELETE "/:id(\d+)/unfollow/:toUnfollowId(\d+)" = Some unfollow ->
  is_segment a -> is_segment b ->
  let to_follow := request POST ("/" ++ a ++ "/follow/" ++ b) in
  let to_unfollow := request DELETE ("/" ++ a ++ "/unfollow/" ++ b) in
  (match_route follow to_follow <> None <->
   is_digits a = true /\ is_digits b = true) /\
  (match_route unfollow to_unfollow <> None <->
   is_digits a = true /\ is_digits b = true) /\
  match_route follow to_follow =
    (if is_digits a && is_digits b
     then Some [("id", a); ("toFollowId", b)] else None) /\
  match_route unfollow to_unfollow =
    (if is_digits a && is_digits b
     then Some [("id", a); ("toUnfollowId", b)] else None).
Proof.
  intros Hf Hu Ha Hb to_follow to_unfollow. the_route Hf. the_route Hu.
  assert (Ef : match_route
                 {| route_method := POST;
                    route_path := "/:id(\d+)/follow/:toFollowId(\d+)";
                    route_stack := [userMiddleware_checkPermissions;
                                    userMiddleware_checkIfExists;
                                    followController_follow] |} to_follow
               = if is_digits a && is_digits b
                 then Some [("id", a); ("toFollowId", b)] else None).
  { unfold match_route, to_follow. cbn [handles_method req_method request
      route_method route_path req_path Method_eqb]. compile_paths.
    exact (match_two_segments "follow" "toFollowId" a b Ha Hb). }
  assert (Eu : match_route
                 {| route_method := DELETE;
                    route_path := "/:id(\d+)/unfollow/:toUnfollowId(\d+)";
                    route_stack := [userMiddleware_checkPermissions;
                                    userMiddleware_checkIfExists;
                                    followController_unfollow] |} to_unfollow
               = if is_digits a && is_digits b
                 then Some [("id", a); ("toUnfollowId", b)] else None).
  { unfold match_route, to_unfollow. cbn [handles_method req_method request
      route_method route_path req_path Method_eqb]. compile_paths.
    exact (match_two_segments "unfollow" "toUnfollowId" a b Ha Hb). }
  rewrite Ef, Eu.
  destruct (is_digits a), (is_digits b); cbn [andb];
    repeat split; try congruence; intros [? ?]; congruence.
Qed.

Lemma follow_unfollow_match_digit_segments_witness :
  is_segment "5" /\ is_segment "17" /\
  exists follow unfollow,
    find_route POST "/:id(\d+)/follow/:toFollowId(\d+)" = Some follow /\
    find_route DELETE "/:id(\d+)/unfollow/:toUnfollowId(\d+)" = Some unfollow /\
    match_route follow (request POST "/5/follow/17")
      = Some [("id", "5"); ("toFollowId", "17")] /\
    match_route unfollow (request DELETE "/5/unfollow/17")
      = Some [("id", "5"); ("toUnfollowId", "17")].
Proof.
  assert (H5 : is_segment "5") by (vm_compute; intuition discriminate).
  assert (H17 : is_segment "17") by (vm_compute; intuition discriminate).
  split; [exact H5|]. split; [exact H17|].
  eexists. eexists. split; [reflexivity|]. split; [reflexivity|].
  destruct (follow_unfollow_match_digit_segments "5" "17" _ _ eq_refl eq_refl H5 H17)
    as (_ & _ & Ef & Eu).
  split; [exact Ef | exact Eu].
Defined.

(** C5.  DELETE /:id/delete is registered with the stack permission
    check, existence check, controller and no rate limiter: for every
    request it matches the router calls the permission check first, calls
    an initial part of that stack in order, calls no rate limiter, calls
    the existence check exactly when the permission check called [next()]
    and the controller exactly when both checks did, so that the three are
    called, in this order, when the two checks call [next()].  In the whole
    router the routes with a rate limiter in their stack are exactly the
    four that update the profile, the password, the username and the
    avatar. *)
Theorem delete_route_has_no_rate_limit :
  (exists r,
     find_route DELETE "/:id(\d+)/delete" = Some r /\
     route_stack r =
       [userMiddleware_checkPermissions; userMiddleware_checkIfExists;
        userController_delete] /\
     forall (World : Type)
            (behave : Handler -> Request -> Params -> World -> Outcome * World)
            (req : Request) (ps : Params) (w : World),
       match_route r req = Some ps ->
       let run := handle behave router req w in
       (exists rest, called run = userMiddleware_checkPermissions :: rest) /\
       (exists rest, route_stack r = called run ++ rest) /\
       (forall h, In h (called run) -> is_rate_limit h = false) /\
       (In userMiddleware_checkIfExists (called run) <->
        exists w',
          passes behave [userMiddleware_checkPermissions] req ps w = Some w') /\
       (In userController_delete (called run) <->
        exists w',
          passes behave
            [userMiddleware_checkPermissions; userMiddleware_checkIfExists]
            req ps w = Some w') /\
       (forall w',
          passes behave
            [userMiddleware_checkPermissions; userMiddleware_checkIfExists]
            req ps w = Some w' ->
          called run =
          [userMiddleware_checkPermissions; userMiddleware_checkIfExists;
           userController_delete])) /\
  (forall r, In r router ->
     (existsb is_rate_limit (route_stack r) = true <->
      In (route_method r, route_path r) rate_limited_routes)).
Proof.
  split.
  - eexists. split; [reflexivity|]. split; [reflexivity|].
    intros World behave req ps w Hr run. subst run.
    rewrite (handle_router behave req _ ps w
               (find_route_In DELETE "/:id(\d+)/delete" _ eq_refl) Hr).
    rewrite called_conclude. cbn [route_stack].
    split; [apply dispatch_called_first|].
    split; [apply dispatch_called_prefix|]. split; [|split; [|split]].
    + intros h Hh.
      destruct (dispatch_called_prefix behave
                  [userMiddleware_checkPermissions; userMiddleware_checkIfExists;
                   userController_delete] req ps w) as [rest Hrest].
      assert (Hin : In h [userMiddleware_checkPermissions;
                          userMiddleware_checkIfExists; userController_delete]).
      { rewrite Hrest. apply in_or_app. now left. }
      simpl in Hin. destruct Hin as [<- | [<- | [<- | []]]]; reflexivity.
    + split.
      * apply (dispatch_called_after behave [userMiddleware_checkPermissions]).
        not_in.
      * intros [w' H].
        exact (dispatch_passes_called behave
                 [userMiddleware_checkPermissions] _ _ _ _ _ _ H).
    + split.
      * apply (dispatch_called_after behave
                 [userMiddleware_checkPermissions; userMiddleware_checkIfExists]
                 []).
        not_in.
      * intros [w' H].
        exact (dispatch_passes_called behave
                 [userMiddleware_checkPermissions; userMiddleware_checkIfExists]
                 [] _ _ _ _ _ H).
    + intros w' H.
      exact (dispatch_passes_all behave
               [userMiddleware_checkPermissions; userMiddleware_checkIfExists]
               userController_delete _ _ _ _ H).
  - intros r Hin. vm_compute in Hin.
    destruct Hin as [<- | [<- | [<- | [<- | [<- | [<- | [<- | [<- | [<- | []]]]]]]]]];
      vm_compute; split; intro H; solve [discriminate | tauto | intuition discriminate].
Qed.

Lemma delete_route_has_no_rate_limit_witness :
  exists r,
    find_route DELETE "/:id(\d+)/delete" = Some r /\
    match_route r (request DELETE "/7/delete") = Some [("id", "7")] /\
    passes (stops_at userController_delete ok)
           [userMiddleware_checkPermissions; userMiddleware_checkIfExists]
           (request DELETE "/7/delete") [("id", "7")] 0 = Some 2 /\
    called (handle (stops_at userController_delete ok) router
                   (request DELETE "/7/delete") 0)
    = [userMiddleware_checkPermissions; userMiddleware_checkIfExists;
       userController_delete] /\
    forall h,
      In h (called (handle (stops_at userController_delete ok) router
                           (request DELETE "/7/delete") 0)) ->
      is_rate_limit h = false.
Proof.
  destruct delete_route_has_no_rate_limit as [(r & Hfind & _ & Hrun) _].
  exists r. split; [exact Hfind|].
  assert (Hm : match_route r (request DELETE "/7/delete") = Some [("id", "7")]).
  { vm_compute in Hfind. injection Hfind as <-. reflexivity. }
  split; [exact Hm|]. split; [reflexivity|].
  destruct (Hrun nat (stops_at userController_delete ok) _ _ 0 Hm)
    as (_ & _ & Hnone & _ & _ & Hall).
  split; [exact (Hall 2 eq_refl) | exact Hnone].
Defined.




End UserRouterFacts.

(** ** Facts about the date utility *)

Module DateFacts.
Import Chars CharFacts DateUtil.

(** *** Strings *)

Lemma append_empty (s : string) : (s ++ "")%string = s.
Proof. induction s as [|c s IH]; simpl; [reflexivity | now rewrite IH]. Qed.

Lemma chars_of_list (l : list ascii) : chars (string_of_list_ascii l) = l.
Proof. apply list_ascii_of_string_of_list_ascii. Qed.

Lemma uint_digits (u : Decimal.uint) :
  forallb is_digit (chars (NilEmpty.string_of_uint u)) = true.
Proof. induction u; simpl; try reflexivity; exact IHu. Qed.

Lemma pad_digits (width n : nat) : forallb is_digit (chars (pad width n)) = true.
Proof.
  unfold pad. rewrite chars_app, chars_of_list, forallb_app, uint_digits, andb_true_r.
  induction (width - _) as [|k IH]; simpl; [reflexivity | exact IH].
Qed.

Lemma lacks_app (a : ascii) (l1 l2 : list ascii) :
  lacks a (l1 ++ l2) = lacks a l1 && lacks a l2.
Proof. apply forallb_app. Qed.

Lemma lacks_digits (a : ascii) (l : list ascii) :
  is_digit a = false -> forallb is_digit l = true -> lacks a l = true.
Proof.
  intros Ha Hl. unfold lacks. rewrite forallb_forall in *. intros c Hc.
  destruct (Ascii.eqb c a) eqn:E; [|reflexivity].
  apply Ascii.eqb_eq in E. subst. rewrite (Hl a Hc) in Ha. discriminate.
Qed.

Lemma lacks_pad (a : ascii) (width n : nat) :
  is_digit a = false -> lacks a (chars (pad width n)) = true.
Proof. intro Ha. apply lacks_digits; [exact Ha | apply pad_digits]. Qed.

Lemma lacks_pad_int (a : ascii) (width : nat) (n : Z) :
  is_digit a = false -> Ascii.eqb a "-" = false ->
  lacks a (chars (pad_int width n)) = true.
Proof.
  intros Ha Hminus. unfold pad_int.
  rewrite chars_app, chars_of_list, lacks_app. apply andb_true_iff. split.
  - apply lacks_digits; [exact Ha|].
    induction (width - _) as [|k IH]; simpl; [reflexivity | exact IH].
  - destruct (Z.to_int n) as [u | u]; cbn [NilEmpty.string_of_int].
    + apply lacks_digits; [exact Ha | apply uint_digits].
    + change (chars (String "-" (NilEmpty.string_of_uint u)))
        with ("-"%char :: chars (NilEmpty.string_of_uint u)).
      cbn [lacks forallb]. rewrite Ascii.eqb_sym, Hminus.
      apply lacks_digits; [exact Ha | apply uint_digits].
Qed.

(** *** Occurrences of a word of two characters *)

Section TwoChars.

Variables a b : ascii.

Lemma occurs_app_r (needle x y : list ascii) :
  occurs needle y = true -> occurs needle (x ++ y) = true.
Proof.
  intro H. induction x as [|c x IH]; simpl; [exact H|].
  rewrite IH. apply orb_true_r.
Qed.

(** No occurrence across a piece without the first character. *)
Lemma quiet_after_lacking (p y : list ascii) :
  lacks a p = true -> occurs [a; b] y = false -> occurs [a; b] (p ++ y) = false.
Proof.
  intros Hp Hy. induction p as [|c p IH]; [exact Hy|].
  simpl in Hp. apply andb_true_iff in Hp as [Hc Hp].
  cbn [app occurs starts]. rewrite (IH Hp), orb_false_r.
  rewrite Ascii.eqb_sym. apply negb_true_iff in Hc. now rewrite Hc.
Qed.

(** No occurrence across a joint whose right side does not begin with the
    second character. *)
Lemma quiet_before (x z : list ascii) :
  occurs [a; b] x = false -> occurs [a; b] z = false ->
  match z with [] => True | c :: _ => Ascii.eqb b c = false end ->
  occurs [a; b] (x ++ z) = false.
Proof.
  intros Hx Hz Hhead. induction x as [|c x IH]; [exact Hz|].
  cbn [occurs] in Hx. apply orb_false_iff in Hx as [Hs Hx].
  cbn [app occurs]. rewrite (IH Hx), orb_false_r.
  cbn [starts] in *. destruct (Ascii.eqb a c); [|reflexivity]. cbn [andb] in *.
  destruct x as [|d x]; cbn [app].
  - destruct z as [|e z]; [reflexivity|]. now rewrite Hhead.
  - exact Hs.
Qed.

Lemma quiet_lacking (p : list ascii) : lacks a p = true -> occurs [a; b] p = false.
Proof.
  intro Hp. rewrite <- (app_nil_r p). now apply quiet_after_lacking.
Qed.

End TwoChars.

Lemma chars_cons (c : ascii) (s : string) : chars (String c s) = c :: chars s.
Proof. reflexivity. Qed.

Lemma occurs_skip (needle : list ascii) (c : ascii) (y : list ascii) :
  occurs needle y = true -> occurs needle (c :: y) = true.
Proof. intro H. cbn [occurs]. rewrite H. apply orb_true_r. Qed.

(** A line [name ++ s :: digits ++ s :: name ++ s :: tail]: when the names
    do not contain the word [a b], the digits and the tail have no [a], and
    the separator [s] is neither [a] nor [b], the line does not contain the
    word. *)
Lemma quiet_line (a b s : ascii) (name1 ds name2 tail : list ascii) :
  occurs [a; b] name1 = false -> occurs [a; b] name2 = false ->
  lacks a ds = true -> lacks a tail = true ->
  Ascii.eqb a s = false -> Ascii.eqb b s = false ->
  occurs [a; b] (name1 ++ s :: ds ++ s :: name2 ++ s :: tail) = false.
Proof.
  intros H1 H2 Hds Htail Ha Hb.
  assert (Hs : negb (Ascii.eqb s a) = true)
    by (rewrite Ascii.eqb_sym, Ha; reflexivity).
  apply quiet_before; [exact H1 | | exact Hb].
  replace (s :: ds ++ s :: name2 ++ s :: tail)
    with ((s :: ds ++ [s]) ++ name2 ++ s :: tail)
    by (cbn [app]; now rewrite <- app_assoc).
  apply quiet_after_lacking.
  - cbn [lacks forallb]. fold (lacks a (ds ++ [s])).
    rewrite lacks_app, Hds, Hs. cbn. now rewrite Hs.
  - apply quiet_before; [exact H2 | | exact Hb].
    apply quiet_lacking. cbn [lacks forallb]. fold (lacks a tail).
    now rewrite Hs, Htail.
Qed.

(** *** The two patterns *)

Lemma hour12_range (h : nat) : 1 <= hour12 h <= 12.
Proof.
  unfold hour12. pose proof (Nat.mod_upper_bound h 12 ltac:(discriminate)).
  destruct (h mod 12); lia.
Qed.

Lemma strict_equals_string (v : Js.Value) (s : string) :
  Js.strict_equals v (Js.Str s) = true <-> v = Js.Str s.
Proof.
  destruct v; simpl; try (split; [discriminate | intro H; discriminate H]).
  rewrite String.eqb_eq. split; [now intros -> | now intros [= ->]].
Qed.

Lemma tokens_24h :
  tokens "dddd DD MMMM YYYY à HH:mm" =
  [Weekday_dddd; Text " "; Day_DD; Text " "; Month_MMMM; Text " "; Year_YYYY;
   Text " "; Text "195"; Text "160"; Text " "; Hour_HH; Text ":"; Minute_mm].
Proof. reflexivity. Qed.

Lemma tokens_12h :
  tokens "dddd DD MMMM YYYY, hh:mm A" =
  [Weekday_dddd; Text " "; Day_DD; Text " "; Month_MMMM; Text " "; Year_YYYY;
   Text ","; Text " "; Hour_hh; Text ":"; Minute_mm; Text " "; Meridiem_A].
Proof. reflexivity. Qed.

Section Formatting.

Context {Locale : Type}.
Variable weekdays months : Locale -> list string.
Variable dayjs : Js.Value -> Dayjs Locale.
Variable select : Instance Locale -> Js.Value -> Instance Locale.
Variable other : Instance Locale -> ascii -> nat -> string.

Lemma render_24h (d : Instance Locale) :
  render weekdays months other d "dddd DD MMMM YYYY à HH:mm" =
  (weekday_name weekdays d ++ " " ++ pad 2 (date d) ++ " "
   ++ month_name months d ++ " " ++ pad_int 4 (year d) ++ " à "
   ++ pad 2 (hour d) ++ ":" ++ pad 2 (minute d))%string.
Proof.
  unfold render. rewrite tokens_24h. cbn [map join fold_right print].
  now rewrite append_empty.
Qed.

Lemma render_12h (d : Instance Locale) :
  render weekdays months other d "dddd DD MMMM YYYY, hh:mm A" =
  (weekday_name weekdays d ++ " " ++ pad 2 (date d) ++ " "
   ++ month_name months d ++ " " ++ pad_int 4 (year d) ++ ", "
   ++ pad 2 (hour12 (hour d)) ++ ":" ++ pad 2 (minute d) ++ " "
   ++ (if (hour d <? 12)%nat then "AM" else "PM"))%string.
Proof.
  unfold render. rewrite tokens_12h. cbn [map join fold_right print].
  now rewrite append_empty.
Qed.

Lemma weekday_name_quiet (a b : ascii) (d : Instance Locale) :
  names_without weekdays months (String a (String b "")) ->
  occurs [a; b] (chars (weekday_name weekdays d)) = false.
Proof.
  intro H. unfold weekday_name.
  destruct (nth_in_or_default (day d) (weekdays (locale_of d)) "") as [Hin | ->];
    [|reflexivity].
  apply (H (locale_of d)). now left.
Qed.

Lemma month_name_quiet (a b : ascii) (d : Instance Locale) :
  names_without weekdays months (String a (String b "")) ->
  occurs [a; b] (chars (month_name months d)) = false.
Proof.
  intro H. unfold month_name.
  destruct (nth_in_or_default (month d) (months (locale_of d)) "") as [Hin | ->];
    [|reflexivity].
  apply (H (locale_of d)). now right.
Qed.

(** The characters of a line: name, separator, day, separator, name,
    separator and the rest. *)
Lemma chars_line (name1 ds name2 tail : string) :
  chars (name1 ++ " " ++ ds ++ " " ++ name2 ++ " " ++ tail) =
  chars name1 ++ " "%char :: chars ds ++ " "%char :: chars name2
    ++ " "%char :: chars tail.
Proof.
  rewrite chars_app. cbn [String.append]. rewrite chars_cons, chars_app.
  cbn [String.append]. rewrite chars_cons, chars_app.
  cbn [String.append]. now rewrite chars_cons.
Qed.

(** A line does not contain a word that its names do not contain and whose
    first character is neither a digit nor in the rest of the line. *)
Lemma line_without (a b : ascii) (d : Instance Locale) (tail : string) :
  names_without weekdays months (String a (String b "")) ->
  is_digit a = false -> Ascii.eqb a " " = false -> Ascii.eqb b " " = false ->
  lacks a (chars tail) = true ->
  includes (weekday_name weekdays d ++ " " ++ pad 2 (date d) ++ " "
            ++ month_name months d ++ " " ++ tail)
           (String a (String b "")) = false.
Proof.
  intros Hnames Ha Has Hbs Htail. unfold includes. rewrite chars_line.
  change (chars (String a (String b ""))) with [a; b].
  apply quiet_line.
  - now apply weekday_name_quiet.
  - now apply month_name_quiet.
  - now apply lacks_pad.
  - exact Htail.
  - exact Has.
  - exact Hbs.
Qed.

Ltac lacking :=
  rewrite ?chars_app, ?lacks_app, ?lacks_pad, ?lacks_pad_int by reflexivity;
  reflexivity.

Ltac find_word :=
  repeat first [ reflexivity | apply occurs_app_r | apply occurs_skip ].

(** What the line of the 24-hour pattern contains. *)
Lemma line_24h_words (d : Instance Locale) :
  let out := render weekdays months other d "dddd DD MMMM YYYY à HH:mm" in
  includes out "à" = true /\
  (names_without weekdays months "AM" -> includes out "AM" = false) /\
  (names_without weekdays months "PM" -> includes out "PM" = false).
Proof.
  intro out. subst out. rewrite render_24h. split; [|split].
  - unfold includes. rewrite chars_line.
    rewrite chars_app. change (chars "à") with ["195"%char; "160"%char].
    cbn [String.append]. rewrite !chars_cons. find_word.
  - intro Hn. apply line_without; try reflexivity; [exact Hn | lacking].
  - intro Hn. apply line_without; try reflexivity; [exact Hn | lacking].
Qed.

(** What the line of the 12-hour pattern contains. *)
Lemma line_12h_words (d : Instance Locale) :
  let out := render weekdays months other d "dddd DD MMMM YYYY, hh:mm A" in
  (includes out "AM" || includes out "PM") = true /\
  (names_without weekdays months "à" -> includes out "à" = false).
Proof.
  intro out. subst out. rewrite render_12h. split.
  - unfold includes. rewrite chars_line, !chars_app.
    cbn [String.append]. rewrite !chars_cons.
    destruct (hour d <? 12)%nat.
    + replace (occurs (chars "AM") _) with true; [reflexivity|].
      symmetry. change (chars "AM") with ["A"%char; "M"%char]. find_word.
    + replace (occurs (chars "PM") _) with true; [apply orb_true_r|].
      symmetry. change (chars "PM") with ["P"%char; "M"%char]. find_word.
  - intro Hn. apply line_without; try reflexivity; [exact Hn|].
    destruct (hour d <? 12)%nat; lacking.
Qed.

Lemma append_cancel (a b c : string) :
  (a ++ b)%string = (a ++ c)%string -> b = c.
Proof.
  induction a as [|x a IH]; cbn [String.append]; intro H; [exact H|].
  injection H as H. now apply IH.
Qed.

(** The two patterns of [date.js] never print the same line. *)
Lemma patterns_render_apart (d : Instance Locale) :
  render weekdays months other d "dddd DD MMMM YYYY à HH:mm" <>
  render weekdays months other d "dddd DD MMMM YYYY, hh:mm A".
Proof.
  rewrite render_24h, render_12h. intro H.
  apply append_cancel in H. cbn [String.append] in H. injection H as H.
  apply append_cancel in H. cbn [String.append] in H. injection H as H.
  apply append_cancel in H. cbn [String.append] in H. injection H as H.
  apply append_cancel in H. cbn [String.append] in H. discriminate H.
Qed.

(** C9.  The test [language === 'fr'] holds for the string fr and for no
    other value: for every language value that is not exactly that string
    (FR, Fr and fr-FR among them, and values that are not strings),
    [format] is [.format] of the 12-hour pattern on what [.locale] gave for
    the language value as it was passed in; on a valid date and for a
    truthy language, that is the 12-hour pattern printed for the instance
    the library selects for that very language value, a line the 24-hour
    pattern never prints. *)
Theorem format_branch_is_exact_string_equality (when language : Js.Value) :
  language <> Js.Str "fr" ->
  Js.strict_equals language (Js.Str "fr") = false /\
  format weekdays months dayjs select other when language =
  dayjs_format weekdays months other (locale select (dayjs when) language)
    "dddd DD MMMM YYYY, hh:mm A" /\
  Forall (fun code =>
            format weekdays months dayjs select other when (Js.Str code) =
            dayjs_format weekdays months other
              (locale select (dayjs when) (Js.Str code))
              "dddd DD MMMM YYYY, hh:mm A")
         ["FR"; "Fr"; "fr-FR"] /\
  format weekdays months dayjs select other when (Js.Str "fr") =
  dayjs_format weekdays months other (locale select (dayjs when) (Js.Str "fr"))
    "dddd DD MMMM YYYY à HH:mm" /\
  (forall i, dayjs when = Valid i -> Js.truthy language = true ->
     format weekdays months dayjs select other when language =
     Js.Return (render weekdays months other (select i language)
                  "dddd DD MMMM YYYY, hh:mm A") /\
     format weekdays months dayjs select other when language <>
     Js.Return (render weekdays months other (select i language)
                  "dddd DD MMMM YYYY à HH:mm")).
Proof.
  intro Hl.
  assert (E : Js.strict_equals language (Js.Str "fr") = false).
  { destruct (Js.strict_equals language (Js.Str "fr")) eqn:E; [|reflexivity].
    apply strict_equals_string in E. contradiction. }
  split; [exact E|]. unfold format. rewrite E. split; [reflexivity|].
  split; [|split; [reflexivity|]].
  - repeat (apply Forall_cons; [reflexivity|]). apply Forall_nil.
  - intros i Hi Ht. unfold locale. rewrite Hi, Ht. cbn [dayjs_format].
    split; [reflexivity|]. intro H. injection H as H.
    exact (patterns_render_apart (select i language) (eq_sym H)).
Qed.

End Formatting.

(** The names of the two packs contain none of the three words. *)
Lemma pack_names_plain :
  names_without pack_weekdays pack_months "AM" /\
  names_without pack_weekdays pack_months "PM" /\
  names_without pack_weekdays pack_months "à".
Proof.
  repeat split; intros l name [H | H]; destruct l; simpl in H;
    repeat (destruct H as [<- | H]; [reflexivity|]); contradiction.
Qed.




Lemma format_branch_is_exact_string_equality_witness :
  Js.Str "fr-FR" <> Js.Str "fr" /\
  sample_format (Js.Number 0) (Js.Str "fr-FR") =
  dayjs_format pack_weekdays pack_months sample_other
    (locale sample_select (sample_dayjs (Js.Number 0)) (Js.Str "fr-FR"))
    "dddd DD MMMM YYYY, hh:mm A".
Proof.
  assert (H : Js.Str "fr-FR" <> Js.Str "fr") by discriminate.
  split; [exact H|].
  exact (proj1 (proj2 (format_branch_is_exact_string_equality
                         pack_weekdays pack_months sample_dayjs sample_select
                         sample_other (Js.Number 0) (Js.Str "fr-FR") H))).
Defined.

End DateFacts.

(** ** More about the user router: the table as a whole *)

Module UserRouterTable.
Import Chars Express UserRouter.

(** The handlers that come from [../controllers]. *)
Definition is_controller (h : Handler) : bool :=
  match h with
  | userController_getInformations | userController_update
  | userController_updatePassword | userController_updateUsername
  | userController_updateAvatar | userController_delete
  | followController_follow | followController_unfollow
  | searchController_searchUserByName => true
  | _ => false
  end.

(** Modelled from the spec: the middlewares of [../middlewares] (the four
    rate limiters, [checkPermissions] and [checkIfExists]) are imported by
    the router file and are not among the sources.  The specification has
    that a middleware "may reject with an error response before the handler
    runs" and that "each middleware is responsible for short-circuiting the
    chain and emitting the appropriate error response the moment its check
    fails": a middleware makes a check on the request, and the check lets
    the request pass or rejects it with an error response. *)
Inductive Verdict : Type :=
| Pass
| Reject (res : Response).

(** Modelled from the spec: the turn of a middleware with the check
    [check].  When the check passes the middleware calls [next()]; when it
    fails the middleware ends the response with the error response and
    calls nothing ("short-circuiting the chain"). *)
Definition middleware {World : Type}
    (check : Request -> Params -> World -> Verdict * World)
    (req : Request) (ps : Params) (w : World) : Outcome * World :=
  let (v, w') := check req ps w in
  (match v with
   | Pass => Next
   | Reject res => Send res
   end, w').

(** The handlers of the router: the middlewares with their checks, and the
    controllers, which are ordinary handlers. *)
Definition handlers {World : Type}
    (checks : Handler -> Request -> Params -> World -> Verdict * World)
    (controllers : Handler -> Request -> Params -> World -> Outcome * World)
    (h : Handler) : Request -> Params -> World -> Outcome * World :=
  if is_controller h then controllers h else middleware (checks h).

(** Sample checks and controllers for concrete runs, in a world that counts
    the calls: every check passes except the one of [stop], which rejects
    the request with [res]; every controller answers the request. *)
Definition rejecting_at (stop : Handler) (res : Response)
    (h : Handler) (_ : Request) (_ : Params) (calls : nat) : Verdict * nat :=
  (if Handler_eqb h stop then Reject res else Pass, S calls).

Definition answering (_ : Handler) (_ : Request) (_ : Params) (calls : nat)
    : Outcome * nat :=
  (Send ok, S calls).

(** The two routes on the follow relation, each with its controller. *)
Definition follow_routes : list (Method * string * Handler) :=
  [ (POST, "/:id(\d+)/follow/:toFollowId(\d+)", followController_follow);
    (DELETE, "/:id(\d+)/unfollow/:toUnfollowId(\d+)", followController_unfollow) ].

(** The routes with the one parameter [id], each with what its path has
    after the parameter. *)
Definition id_routes : list (Method * string * string) :=
  [ (GET, "/:id(\d+)", "");
    (PATCH, "/:id(\d+)/update", "/update");
    (PATCH, "/:id(\d+)/update/password", "/update/password");
    (PATCH, "/:id(\d+)/update/username", "/update/username");
    (PUT, "/:id(\d+)/update/avatar", "/update/avatar");
    (DELETE, "/:id(\d+)/delete", "/delete") ].

(** The path does not end with a slash. *)
Definition open_ended (path : string) : Prop :=
  forall before, chars path <> before ++ [slash].

End UserRouterTable.

(** ** More facts about matching: letter case and the trailing slash *)

Module MatchingFacts.
Import Chars CharFacts Express ExpressFacts.

(** *** Letter case *)

Lemma lower_keeps_digits (y : ascii) : is_digit (lower y) = is_digit y.
Proof. destruct y as [[] [] [] [] [] [] [] []]; reflexivity. Qed.

Lemma same_lower_digit (x y : ascii) :
  lower x = lower y ->
  is_digit x = is_digit y /\ (is_digit x = true -> x = y).
Proof.
  intro H. assert (E : is_digit x = is_digit y)
    by (rewrite <- (lower_keeps_digits x), H; apply lower_keeps_digits).
  split; [exact E|]. intro Hx.
  rewrite <- (digit_lower x Hx), H. apply digit_lower. now rewrite <- E.
Qed.

Lemma span_same_lower (s : list ascii) :
  forall s' ds rest,
  map lower s = map lower s' -> span is_digit s = (ds, rest) ->
  exists rest', span is_digit s' = (ds, rest') /\ map lower rest = map lower rest'.
Proof.
  induction s as [|x s IH]; intros [|y s'] ds rest Hl Hs; try discriminate.
  - inversion Hs; subst. now exists [].
  - cbn [map] in Hl. injection Hl as Hxy Hl.
    destruct (same_lower_digit x y Hxy) as [Ed Eq].
    cbn [span] in *. rewrite <- Ed. destruct (is_digit x) eqn:Hx.
    + destruct (span is_digit s) as [a b] eqn:Hsp. inversion Hs; subst.
      destruct (IH s' a rest Hl eq_refl) as (rest' & -> & Hr).
      exists rest'. rewrite <- (Eq eq_refl). now split.
    + inversion Hs; subst. exists (y :: s'). split; [reflexivity|].
      cbn [map]. now rewrite Hxy, Hl.
Qed.

Lemma eat_same_lower (ts : list Token) :
  forall s s' ps rest,
  map lower s = map lower s' -> eat ts s = Some (ps, rest) ->
  exists rest', eat ts s' = Some (ps, rest') /\ map lower rest = map lower rest'.
Proof.
  induction ts as [|[c | key] ts IH]; intros s s' ps rest Hl H.
  - injection H as <- <-. now exists s'.
  - destruct s as [|x s]; [discriminate|]. destruct s' as [|y s']; [discriminate|].
    cbn [map] in Hl. injection Hl as Hxy Hl. cbn [eat] in *.
    unfold eqb_ci in *. rewrite <- Hxy.
    destruct (Ascii.eqb (lower c) (lower x)); [|discriminate]. eauto.
  - cbn [eat] in *.
    destruct (span is_digit s) as [[|d ds] r] eqn:Hs; [discriminate|].
    destruct (eat ts r) as [[qs after]|] eqn:Hr; [|discriminate].
    injection H as <- <-.
    destruct (span_same_lower _ _ _ _ Hl Hs) as (r' & -> & Hlr).
    destruct (IH _ _ _ _ Hlr Hr) as (rest' & -> & Hrest). eauto.
Qed.

Lemma at_end_same_lower (s s' : list ascii) :
  map lower s = map lower s' -> at_end s = at_end s'.
Proof.
  destruct s as [|x [|x' s]]; destruct s' as [|y [|y' s']]; try discriminate;
    try reflexivity.
  cbn [map at_end]. intros [= H].
  destruct (Ascii.eqb x slash) eqn:Ex; destruct (Ascii.eqb y slash) eqn:Ey;
    try reflexivity; exfalso.
  - apply Ascii.eqb_eq in Ex. subst x. apply Ascii.eqb_neq in Ey. apply Ey.
    apply eqb_ci_slash, eqb_ci_lower. now symmetry.
  - apply Ascii.eqb_eq in Ey. subst y. apply Ascii.eqb_neq in Ex. apply Ex.
    apply eqb_ci_slash, eqb_ci_lower. exact H.
Qed.

Lemma exec_same_lower_some (ts : list Token) (s s' : list ascii) (ps : Params) :
  map lower s = map lower s' -> exec ts s = Some ps -> exec ts s' = Some ps.
Proof.
  unfold exec. intros Hl H.
  destruct (eat ts s) as [[qs rest]|] eqn:E; [|discriminate].
  destruct (eat_same_lower _ _ _ _ _ Hl E) as (rest' & -> & Hr).
  now rewrite <- (at_end_same_lower _ _ Hr).
Qed.

Lemma exec_same_lower (ts : list Token) (s s' : list ascii) :
  map lower s = map lower s' -> exec ts s = exec ts s'.
Proof.
  intro Hl. destruct (exec ts s) as [ps|] eqn:E.
  - symmetry. now apply (exec_same_lower_some ts s s').
  - destruct (exec ts s') as [ps|] eqn:E'; [|reflexivity].
    rewrite (exec_same_lower_some ts s' s ps) in E; [discriminate | now symmetry | exact E'].
Qed.

Lemma match_path_same_ci (pattern p p' : string) :
  same_ci p p' -> match_path pattern p = match_path pattern p'.
Proof.
  intro H. unfold match_path. destruct (compile pattern); [|reflexivity].
  now apply exec_same_lower.
Qed.

(** *** The trailing slash *)

Lemma span_snoc (p : ascii -> bool) (c : ascii) (s : list ascii) :
  p c = false ->
  forall a b, span p s = (a, b) -> span p (s ++ [c]) = (a, b ++ [c]).
Proof.
  intro Hc. induction s as [|x s IH]; intros a b H; cbn [app span] in *.
  - inversion H; subst. now rewrite Hc.
  - destruct (p x).
    + destruct (span p s) as [a' b']. inversion H; subst.
      now rewrite (IH a' b eq_refl).
    + now inversion H.
Qed.

Lemma eat_snoc_slash (ts : list Token) :
  forall s ps rest,
  eat ts s = Some (ps, rest) ->
  eat ts (s ++ [slash]) = Some (ps, rest ++ [slash]).
Proof.
  induction ts as [|[c | key] ts IH]; intros s ps rest H.
  - now injection H as <- <-.
  - destruct s as [|x s]; [discriminate|]. cbn [app eat] in *.
    destruct (eqb_ci c x); [now apply IH | discriminate].
  - cbn [eat] in *.
    destruct (span is_digit s) as [[|d ds] r] eqn:Hs; [discriminate|].
    rewrite (span_snoc is_digit slash s slash_not_digit _ _ Hs).
    destruct (eat ts r) as [[qs after]|] eqn:Hr; [|discriminate].
    injection H as <- <-. now rewrite (IH _ _ _ Hr).
Qed.

(** What [eat] leaves is an end of what it was given. *)
Lemma eat_leaves_an_end (ts : list Token) :
  forall s ps rest, eat ts s = Some (ps, rest) -> exists taken, s = taken ++ rest.
Proof.
  induction ts as [|[c | key] ts IH]; intros s ps rest H.
  - injection H as <- <-. now exists [].
  - destruct s as [|x s]; [discriminate|]. cbn [eat] in H.
    destruct (eqb_ci c x); [|discriminate].
    destruct (IH _ _ _ H) as [taken ->]. now exists (x :: taken).
  - cbn [eat] in H.
    destruct (span is_digit s) as [[|d ds] r] eqn:Hs; [discriminate|].
    destruct (eat ts r) as [[qs after]|] eqn:Hr; [|discriminate].
    injection H as <- <-. apply span_app in Hs as [-> _].
    destruct (IH _ _ _ Hr) as [taken ->]. exists ((d :: ds) ++ taken).
    now rewrite app_assoc.
Qed.

Lemma exec_trailing_slash (ts : list Token) (s : list ascii) (ps : Params) :
  (forall before, s <> before ++ [slash]) ->
  exec ts s = Some ps ->
  exec ts (s ++ [slash]) = Some ps /\ exec ts (s ++ [slash; slash]) = None.
Proof.
  unfold exec. intros Hopen H.
  destruct (eat ts s) as [[qs rest]|] eqn:E; [|discriminate].
  destruct (at_end rest) eqn:Hend; [|discriminate]. injection H as <-.
  assert (Hrest : rest = []).
  { destruct rest as [|c [|c' rest]]; [reflexivity | | discriminate].
    cbn [at_end] in Hend. apply Ascii.eqb_eq in Hend. subst c.
    destruct (eat_leaves_an_end _ _ _ _ E) as [taken Hs].
    exfalso. exact (Hopen taken Hs). }
  subst rest. split.
  - now rewrite (eat_snoc_slash _ _ _ _ E).
  - change (s ++ [slash; slash]) with (s ++ [slash] ++ [slash]).
    rewrite app_assoc.
    now rewrite (eat_snoc_slash _ _ _ _ (eat_snoc_slash _ _ _ _ E)).
Qed.

End MatchingFacts.

(** ** Facts about the table as a whole *)

Module UserRouterTableFacts.
Import Chars CharFacts Express ExpressFacts UserRouter UserRouterFacts.
Import UserRouterTable MatchingFacts.

Lemma match_or_not {Handler : Type} (routes : list (Route Handler)) (req : Request) :
  Forall (no_match req) routes \/
  exists r ps, In r routes /\ match_route r req = Some ps.
Proof.
  induction routes as [|r routes IH]; [left; constructor|].
  destruct (match_route r req) as [ps|] eqn:E.
  - right. exists r, ps. split; [now left | exact E].
  - destruct IH as [IH | (r' & ps & Hin & Hm)].
    + left. now constructor.
    + right. exists r', ps. split; [now right | exact Hm].
Qed.

(** A handler the router calls is a handler of the stack of a route that
    matches the request, called in the run of that stack. *)
Lemma called_of_request {World : Type}
    (behave : Handler -> Request -> Params -> World -> Outcome * World)
    (req : Request) (w : World) (h : Handler) :
  In h (called (handle behave router req w)) ->
  exists r ps,
    In r router /\ match_route r req = Some ps /\
    In h (called (dispatch behave (route_stack r) req ps w)) /\
    In h (route_stack r).
Proof.
  intro Hcalled.
  destruct (match_or_not router req) as [Hnone | (r & ps & Hin & Hm)].
  - rewrite (handle_no_match behave router req w Hnone) in Hcalled.
    contradiction.
  - rewrite (handle_router behave req r ps w Hin Hm), called_conclude in Hcalled.
    exists r, ps. repeat split; try assumption.
    destruct (dispatch_called_prefix behave (route_stack r) req ps w)
      as [rest Hrest]. rewrite Hrest. apply in_or_app. now left.
Qed.

(** X1.  No request is matched by two routes of the router: the route that
    takes a request, and the parameters it captures, are determined by the
    request, whatever the order of registration. *)
Theorem one_route_per_request
    (req : Request) (r1 r2 : Route Handler) (ps1 ps2 : Params) :
  In r1 router -> In r2 router ->
  match_route r1 req = Some ps1 -> match_route r2 req = Some ps2 ->
  r1 = r2 /\ ps1 = ps2.
Proof.
  intros H1 H2 M1 M2.
  destruct (router_alone req r1 ps1 H1 M1) as (before & after & E & Hb & Ha).
  rewrite Forall_forall in Hb, Ha. rewrite E in H2.
  apply in_app_or in H2 as [H2 | [H2 | H2]].
  - specialize (Hb _ H2). unfold no_match in Hb. congruence.
  - subst r2. split; [reflexivity | congruence].
  - specialize (Ha _ H2). unfold no_match in Ha. congruence.
Qed.

Lemma one_route_per_request_witness :
  exists r1 r2,
    find_route PATCH "/:id(\d+)/update" = Some r1 /\
    find (fun r => match match_route r (request PATCH "/42/update") with
                   | Some _ => true
                   | None => false
                   end) router = Some r2 /\
    match_route r1 (request PATCH "/42/update") = Some [("id", "42")] /\
    match_route r2 (request PATCH "/42/update") = Some [("id", "42")] /\
    r1 = r2.
Proof.
  eexists. eexists. split; [reflexivity|]. split; [reflexivity|].
  split; [reflexivity|]. split; [reflexivity|].
  match goal with
  | |- ?a = ?b =>
      assert (Ha : In a router) by (vm_compute; tauto);
      exact (proj1 (one_route_per_request (request PATCH "/42/update") a b
                      [("id", "42")] [("id", "42")] Ha Ha eq_refl eq_refl))
  end.
Defined.

(** X2.  Every request with one of the methods GET, HEAD, POST, PUT, PATCH
    and DELETE (the requests of this development; an OPTIONS request is not
    one of them) either is matched by no route, and then the router calls
    no handler, leaves the world as it was and hands the request back
    unanswered; or is matched by a route, and then the run of the router is
    the run of the stack of that route: the handlers called are an initial
    part of that one stack, and no handler of another route is called. *)
Theorem every_request_runs_at_most_one_stack
    (World : Type)
    (behave : Handler -> Request -> Params -> World -> Outcome * World)
    (req : Request) (w : World) :
  In (req_method req) [GET; HEAD; POST; PUT; PATCH; DELETE] /\
  ((Forall (no_match req) router /\
    handle behave router req w =
    {| ending := Unhandled; called := []; world := w |}) \/
   (exists r ps,
      In r router /\ match_route r req = Some ps /\
      handle behave router req w =
      conclude (dispatch behave (route_stack r) req ps w) /\
      exists rest, route_stack r = called (handle behave router req w) ++ rest)).
Proof.
  split; [destruct (req_method req); simpl; tauto|].
  destruct (match_or_not router req) as [Hnone | (r & ps & Hin & Hm)].
  - left. split; [exact Hnone | now apply handle_no_match].
  - right. exists r, ps. split; [exact Hin|]. split; [exact Hm|].
    rewrite (handle_router behave req r ps w Hin Hm).
    split; [reflexivity|]. rewrite called_conclude. apply dispatch_called_prefix.
Qed.

(** X3.  When every handler of the matched route calls [next()], the
    controller included, the request is left unanswered: all the handlers
    of the route were called, in order, no later route takes the request,
    and the router hands it back (the 404 of the application). *)
Theorem unanswered_when_every_handler_calls_next
    (World : Type)
    (behave : Handler -> Request -> Params -> World -> Outcome * World)
    (req : Request) (r : Route Handler) (ps : Params) (w w' : World) :
  In r router -> match_route r req = Some ps ->
  passes behave (route_stack r) req ps w = Some w' ->
  handle behave router req w =
  {| ending := Unhandled; called := route_stack r; world := w' |}.
Proof.
  intros Hin Hm Hp. rewrite (handle_router behave req r ps w Hin Hm).
  rewrite <- (app_nil_r (route_stack r)) at 1.
  rewrite (dispatch_passes behave _ [] req ps w w' Hp).
  cbn. now rewrite app_nil_r.
Qed.

Lemma unanswered_when_every_handler_calls_next_witness :
  exists r,
    In r router /\
    match_route r (request DELETE "/7/delete") = Some [("id", "7")] /\
    passes (stops_at searchController_searchUserByName ok) (route_stack r)
           (request DELETE "/7/delete") [("id", "7")] 0 = Some 3 /\
    handle (stops_at searchController_searchUserByName ok) router
           (request DELETE "/7/delete") 0 =
    {| ending := Unhandled;
       called := [userMiddleware_checkPermissions; userMiddleware_checkIfExists;
                  userController_delete];
       world := 3 |}.
Proof.
  assert (Hin : In {| route_method := DELETE; route_path := "/:id(\d+)/delete";
                      route_stack := [userMiddleware_checkPermissions;
                                      userMiddleware_checkIfExists;
                                      userController_delete] |} router)
    by (vm_compute; tauto).
  eexists. split; [exact Hin|]. split; [reflexivity|]. split; [reflexivity|].
  exact (unanswered_when_every_handler_calls_next nat
           (stops_at searchController_searchUserByName ok)
           (request DELETE "/7/delete") _ [("id", "7")] 0 3
           Hin eq_refl eq_refl).
Defined.

(** X4.  Whatever the request and whatever the handlers do, a controller
    other than the search controller is called only as the last handler of
    the route that matches the request, after the existence check was
    called and called [next()], and, unless it is the controller that reads
    a user, after the permission check was called and called [next()] too:
    all the handlers before the controller called [next()]. *)
Theorem controllers_are_guarded
    (World : Type)
    (behave : Handler -> Request -> Params -> World -> Outcome * World)
    (req : Request) (w : World) (h : Handler) :
  In h (called (handle behave router req w)) ->
  is_controller h = true ->
  h <> searchController_searchUserByName ->
  exists r ps pre w',
    In r router /\ match_route r req = Some ps /\
    route_stack r = pre ++ [h] /\
    In userMiddleware_checkIfExists pre /\
    (h <> userController_getInformations ->
     In userMiddleware_checkPermissions pre) /\
    passes behave pre req ps w = Some w'.
Proof.
  intros Hcalled Hctrl Hsearch.
  destruct (called_of_request behave req w h Hcalled)
    as (r & ps & Hin & Hm & Hrun & Hstack).
  assert (Hshape : exists pre,
    route_stack r = pre ++ [h] /\ ~ In h pre /\
    In userMiddleware_checkIfExists pre /\
    (h <> userController_getInformations ->
     In userMiddleware_checkPermissions pre)).
  { clear Hcalled Hrun Hm. vm_compute in Hin.
    destruct Hin as [<- | [<- | [<- | [<- | [<- | [<- | [<- | [<- | [<- | []]]]]]]]]];
      cbn [route_stack] in Hstack |- *; cbn [In] in Hstack;
      repeat (destruct Hstack as [<- | Hstack]; try discriminate Hctrl);
      try contradiction;
      (match goal with
       | |- exists pre, ?l = pre ++ [_] /\ _ =>
           let p := eval cbn in (removelast l) in exists p
       end;
       split; [reflexivity|]; split; [not_in|];
       split; [simpl; tauto | intro; simpl; tauto]). }
  destruct Hshape as (pre & Hpre & Hnot & Hexists & Hperm).
  rewrite Hpre in Hrun.
  destruct (dispatch_called_after behave pre [] h req ps Hnot w Hrun)
    as [w' Hw'].
  exists r, ps, pre, w'. repeat split; assumption.
Qed.

Lemma controllers_are_guarded_witness :
  In userController_update
     (called (handle (stops_at userController_update ok) router
                     (request PATCH "/42/update") 0)) /\
  is_controller userController_update = true /\
  exists r ps pre w',
    In r router /\
    match_route r (request PATCH "/42/update") = Some ps /\
    route_stack r = pre ++ [userController_update] /\
    In userMiddleware_checkIfExists pre /\
    In userMiddleware_checkPermissions pre /\
    passes (stops_at userController_update ok) pre
           (request PATCH "/42/update") ps 0 = Some w'.
Proof.
  assert (Hc : In userController_update
                 (called (handle (stops_at userController_update ok) router
                                 (request PATCH "/42/update") 0)))
    by (vm_compute; tauto).
  split; [exact Hc|]. split; [reflexivity|].
  destruct (controllers_are_guarded nat (stops_at userController_update ok)
              (request PATCH "/42/update") 0 userController_update Hc eq_refl)
    as (r & ps & pre & w' & Hin & Hm & Hs & He & Hp & Hpass);
    [discriminate|].
  exists r, ps, pre, w'. repeat split; try assumption.
  apply Hp. discriminate.
Defined.

(** X5.  POST /:id/follow/:toFollowId and DELETE /:id/unfollow/:toUnfollowId
    are registered with the stack permission check, existence check,
    controller: for every request such a route matches, the router calls the
    permission check first, an initial part of that stack in order, no rate
    limiter, the existence check only after the permission check called
    [next()], and the controller only after both did. *)
Theorem follow_routes_chain_order
    (m : Method) (path : string) (controller : Handler) :
  In (m, path, controller) follow_routes ->
  exists r,
    find_route m path = Some r /\
    route_stack r =
      [userMiddleware_checkPermissions; userMiddleware_checkIfExists;
       controller] /\
    forall (World : Type)
           (behave : Handler -> Request -> Params -> World -> Outcome * World)
           (req : Request) (ps : Params) (w : World),
      match_route r req = Some ps ->
      let run := handle behave router req w in
      (exists rest, called run = userMiddleware_checkPermissions :: rest) /\
      (exists rest, route_stack r = called run ++ rest) /\
      (forall h, In h (called run) -> is_rate_limit h = false) /\
      (In userMiddleware_checkIfExists (called run) ->
       exists w1,
         passes behave [userMiddleware_checkPermissions] req ps w = Some w1) /\
      (In controller (called run) ->
       exists w2,
         passes behave
           [userMiddleware_checkPermissions; userMiddleware_checkIfExists]
           req ps w = Some w2).
Proof.
  intro Hin.
  assert (Hall : Forall (fun '(m, path, controller) =>
    exists r, find_route m path = Some r /\
      route_stack r = [userMiddleware_checkPermissions;
                       userMiddleware_checkIfExists; controller] /\
      is_rate_limit controller = false /\
      ~ In controller [userMiddleware_checkPermissions;
                       userMiddleware_checkIfExists]) follow_routes).
  { repeat (apply Forall_cons;
      [eexists; split; [vm_compute; reflexivity|];
       split; [reflexivity|]; split; [reflexivity | not_in]|]).
    apply Forall_nil. }
  rewrite Forall_forall in Hall. specialize (Hall _ Hin). cbv beta iota in Hall.
  destruct Hall as (r & Hfind & Hstack & Hrl & Hnot).
  exists r. split; [exact Hfind|]. split; [exact Hstack|].
  intros World behave req ps w Hr run. subst run.
  rewrite (handle_router behave req r ps w (find_route_In _ _ _ Hfind) Hr).
  rewrite called_conclude, Hstack.
  split; [apply dispatch_called_first|].
  split; [apply dispatch_called_prefix|]. split; [|split].
  - intros h Hh.
    destruct (dispatch_called_prefix behave
                [userMiddleware_checkPermissions; userMiddleware_checkIfExists;
                 controller] req ps w) as [rest Hrest].
    assert (Hs : In h [userMiddleware_checkPermissions;
                       userMiddleware_checkIfExists; controller])
      by (rewrite Hrest; apply in_or_app; now left).
    simpl in Hs. destruct Hs as [<- | [<- | [<- | []]]];
      solve [reflexivity | exact Hrl].
  - apply (dispatch_called_after behave [userMiddleware_checkPermissions]).
    not_in.
  - apply (dispatch_called_after behave
             [userMiddleware_checkPermissions; userMiddleware_checkIfExists] []).
    exact Hnot.
Qed.

Lemma follow_routes_chain_order_witness :
  In (POST, "/:id(\d+)/follow/:toFollowId(\d+)", followController_follow)
     follow_routes /\
  exists r,
    find_route POST "/:id(\d+)/follow/:toFollowId(\d+)" = Some r /\
    match_route r (request POST "/5/follow/17")
      = Some [("id", "5"); ("toFollowId", "17")] /\
    exists rest,
      called (handle (stops_at userMiddleware_checkIfExists forbidden) router
                     (request POST "/5/follow/17") 0)
      = userMiddleware_checkPermissions :: rest.
Proof.
  assert (Hin : In (POST, "/:id(\d+)/follow/:toFollowId(\d+)",
                    followController_follow) follow_routes)
    by (simpl; auto).
  split; [exact Hin|].
  destruct (follow_routes_chain_order _ _ _ Hin) as (r & Hfind & _ & Hrun).
  exists r. split; [exact Hfind|].
  assert (Hm : match_route r (request POST "/5/follow/17")
               = Some [("id", "5"); ("toFollowId", "17")]).
  { vm_compute in Hfind. injection Hfind as <-. reflexivity. }
  split; [exact Hm|].
  destruct (Hrun nat (stops_at userMiddleware_checkIfExists forbidden)
                 _ _ 0 Hm) as [Hfirst _].
  exact Hfirst.
Defined.

Lemma exec_own_letters (l : list ascii) :
  forall ts s, exec (map Lit l ++ ts) (l ++ s) = exec ts s.
Proof.
  induction l as [|c l IH]; intros ts s; cbn [map app]; [reflexivity|].
  rewrite exec_lit. unfold eqb_ci. now rewrite Ascii.eqb_refl.
Qed.

(** A path of one parameter and a literal rest, against /n and that rest. *)
Lemma match_one_segment (rest n : string) :
  is_segment n -> ends_segment (chars rest) = true ->
  exec (Lit slash :: Digits "id" :: map Lit (chars rest))
       (chars ("/" ++ n ++ rest)) =
  if is_digits n then Some [("id", n)] else None.
Proof.
  intros Hn Hrest.
  change (chars ("/" ++ n ++ rest)) with (slash :: chars (n ++ rest)).
  rewrite chars_app, exec_lit.
  replace (eqb_ci slash slash) with true by reflexivity.
  assert (Hseg : after_segment (chars rest)).
  { destruct (chars rest) as [|c l]; [now left|]. right.
    cbn [ends_segment] in Hrest. apply Ascii.eqb_eq in Hrest. subst. eauto. }
  assert (Hpar : after_param (map Lit (chars rest))).
  { destruct Hseg as [-> | [l ->]]; [now left | right; cbn [map]; eauto]. }
  rewrite exec_digits_segment by assumption.
  rewrite string_of_chars. unfold is_digits.
  destruct (digits1 (chars n)); [|reflexivity].
  rewrite <- (app_nil_r (map Lit (chars rest))).
  rewrite <- (app_nil_r (chars rest)) at 2.
  now rewrite exec_own_letters.
Qed.

(** X6.  For each of the six routes with the one parameter [id] (GET /:id,
    the four updates and DELETE /:id/delete) and every path segment [n], the
    path /n followed by the rest of the route's path is matched if and only
    if [n] is a non-empty sequence of decimal digits, and the parameter
    [id] is then [n] itself, character for character. *)
Theorem id_routes_match_digit_ids
    (m : Method) (path rest : string) (n : string) :
  In (m, path, rest) id_routes ->
  is_segment n ->
  exists r,
    find_route m path = Some r /\
    match_route r (request m ("/" ++ n ++ rest)) =
    if is_digits n then Some [("id", n)] else None.
Proof.
  intros Hin Hn.
  assert (Hall : Forall (fun '(m, path, rest) =>
    exists r, find_route m path = Some r /\
      forall p, match_route r (request m p) =
                exec (Lit slash :: Digits "id" :: map Lit (chars rest)) (chars p))
    id_routes).
  { repeat (apply Forall_cons;
      [eexists; split; [vm_compute; reflexivity|]; intro p;
       unfold match_route;
       cbn [handles_method req_method request route_method route_path req_path
            Method_eqb];
       compile_paths; reflexivity|]).
    apply Forall_nil. }
  assert (Hends : Forall (fun '(_, _, rest) => ends_segment (chars rest) = true)
                         id_routes)
    by (repeat (apply Forall_cons; [reflexivity|]); apply Forall_nil).
  rewrite Forall_forall in Hall, Hends.
  specialize (Hall _ Hin). specialize (Hends _ Hin). cbv beta iota in Hall, Hends.
  destruct Hall as (r & Hfind & Hmatch).
  exists r. split; [exact Hfind|]. rewrite Hmatch.
  now apply match_one_segment.
Qed.

Lemma id_routes_match_digit_ids_witness :
  In (PUT, "/:id(\d+)/update/avatar", "/update/avatar") id_routes /\
  is_segment "007" /\ is_segment "7a" /\
  exists r,
    find_route PUT "/:id(\d+)/update/avatar" = Some r /\
    match_route r (request PUT "/007/update/avatar") = Some [("id", "007")] /\
    match_route r (request PUT "/7a/update/avatar") = None.
Proof.
  assert (Hin : In (PUT, "/:id(\d+)/update/avatar", "/update/avatar") id_routes)
    by (simpl; auto 10).
  assert (H7 : is_segment "007") by (vm_compute; intuition discriminate).
  assert (Ha : is_segment "7a") by (vm_compute; intuition discriminate).
  split; [exact Hin|]. split; [exact H7|]. split; [exact Ha|].
  destruct (id_routes_match_digit_ids _ _ _ "007" Hin H7) as (r & Hfind & E7).
  destruct (id_routes_match_digit_ids _ _ _ "7a" Hin Ha) as (r' & Hfind' & Ea).
  exists r. split; [exact Hfind|]. split; [exact E7|].
  assert (r' = r) by congruence. subst r'. exact Ea.
Defined.

(** X7.  The router is created without options, so it is not case
    sensitive: a route of the router matches a path if and only if it
    matches the path with its letters in any other case, and it captures
    the same parameters. *)
Theorem routes_ignore_letter_case
    (r : Route Handler) (m : Method) (p p' : string) :
  In r router -> same_ci p p' ->
  match_route r (request m p) = match_route r (request m p').
Proof.
  intros _ H. unfold match_route.
  cbn [req_method req_path request].
  destruct (handles_method r m); [|reflexivity].
  now apply match_path_same_ci.
Qed.

Lemma routes_ignore_letter_case_witness :
  same_ci "/42/UPDATE/Password" "/42/update/password" /\
  exists r,
    In r router /\
    match_route r (request PATCH "/42/update/password") = Some [("id", "42")] /\
    match_route r (request PATCH "/42/UPDATE/Password") = Some [("id", "42")].
Proof.
  assert (H : same_ci "/42/UPDATE/Password" "/42/update/password")
    by reflexivity.
  assert (Hin : In {| route_method := PATCH;
                      route_path := "/:id(\d+)/update/password";
                      route_stack := [rateLimit_updatePassword;
                                      userMiddleware_checkPermissions;
                                      userMiddleware_checkIfExists;
                                      userController_updatePassword] |} router)
    by (vm_compute; tauto).
  split; [exact H|]. eexists. split; [exact Hin|]. split; [reflexivity|].
  rewrite (routes_ignore_letter_case _ PATCH _ _ Hin H). reflexivity.
Defined.

(** X8.  The router is created without options, so it is not strict: when
    a route of the router matches a path that does not end with a slash, it
    matches the path with one slash added at the end as well, with the same
    parameters, and it does not match the path with two slashes added. *)
Theorem routes_allow_one_trailing_slash
    (r : Route Handler) (m : Method) (p : string) (ps : Params) :
  In r router -> open_ended p ->
  match_route r (request m p) = Some ps ->
  match_route r (request m (p ++ "/")) = Some ps /\
  match_route r (request m (p ++ "//")) = None.
Proof.
  intros _ Hopen. unfold match_route, match_path.
  cbn [req_method req_path request].
  destruct (handles_method r m); [|discriminate].
  destruct (compile (route_path r)) as [ts|]; [|discriminate].
  rewrite !chars_app. intro H.
  exact (exec_trailing_slash ts (chars p) ps Hopen H).
Qed.

Lemma routes_allow_one_trailing_slash_witness :
  open_ended "/5/follow/17" /\
  exists r,
    In r router /\
    match_route r (request POST "/5/follow/17")
      = Some [("id", "5"); ("toFollowId", "17")] /\
    match_route r (request POST "/5/follow/17/")
      = Some [("id", "5"); ("toFollowId", "17")] /\
    match_route r (request POST "/5/follow/17//") = None.
Proof.
  assert (Hopen : open_ended "/5/follow/17").
  { intros before H. apply (f_equal (fun l => last l "a"%char)) in H.
    rewrite last_last in H. discriminate H. }
  assert (Hin : In {| route_method := POST;
                      route_path := "/:id(\d+)/follow/:toFollowId(\d+)";
                      route_stack := [userMiddleware_checkPermissions;
                                      userMiddleware_checkIfExists;
                                      followController_follow] |} router)
    by (vm_compute; tauto).
  split; [exact Hopen|]. eexists. split; [exact Hin|]. split; [reflexivity|].
  exact (routes_allow_one_trailing_slash _ POST "/5/follow/17" _ Hin Hopen eq_refl).
Defined.

(** X9.  A GET or HEAD request, whatever its path and whatever the
    handlers do, makes the router call no handler other than the existence
    check, the controller that reads a user and the search controller: no
    rate limiter, no permission check and no controller that changes
    anything. *)
Theorem reads_call_only_reading_handlers
    (World : Type)
    (behave : Handler -> Request -> Params -> World -> Outcome * World)
    (req : Request) (w : World) (h : Handler) :
  req_method req = GET \/ req_method req = HEAD ->
  In h (called (handle behave router req w)) ->
  h = userMiddleware_checkIfExists \/ h = userController_getInformations \/
  h = searchController_searchUserByName.
Proof.
  intros Hmethod Hcalled.
  destruct (called_of_request behave req w h Hcalled)
    as (r & ps & Hin & Hm & _ & Hstack).
  assert (Hget : route_method r = GET).
  { unfold match_route in Hm.
    destruct (handles_method r (req_method req)) eqn:Hh; [|discriminate].
    unfold handles_method in Hh.
    destruct Hmethod as [Hq | Hq]; rewrite Hq in Hh;
      destruct (route_method r); solve [reflexivity | discriminate]. }
  clear Hcalled Hm. vm_compute in Hin.
  destruct Hin as [<- | [<- | [<- | [<- | [<- | [<- | [<- | [<- | [<- | []]]]]]]]]];
    try discriminate Hget; cbn [route_stack In] in Hstack; intuition auto.
Qed.

Lemma reads_call_only_reading_handlers_witness :
  req_method (request HEAD "/42") = HEAD /\
  In userController_getInformations
     (called (handle (stops_at userController_getInformations ok) router
                     (request HEAD "/42") 0)) /\
  called (handle (stops_at userController_getInformations ok) router
                 (request HEAD "/42") 0)
  = [userMiddleware_checkIfExists; userController_getInformations].
Proof.
  assert (Hc : In userController_getInformations
                 (called (handle (stops_at userController_getInformations ok)
                                 router (request HEAD "/42") 0)))
    by (vm_compute; tauto).
  split; [reflexivity|]. split; [exact Hc|].
  destruct (reads_call_only_reading_handlers nat
              (stops_at userController_getInformations ok)
              (request HEAD "/42") 0 userController_getInformations
              (or_intror eq_refl) Hc) as [H | [H | H]];
    solve [discriminate H | reflexivity].
Defined.

(** The places of a handler in a stack: what comes before it and what
    comes after it. *)
Lemma places {A : Type} (l pre post : list A) (m : A) :
  l = pre ++ m :: post ->
  In (pre, m, post)
     (map (fun k => (firstn k l, nth k l m, skipn (S k) l)) (seq 0 (List.length l))).
Proof.
  intros ->. apply in_map_iff. exists (List.length pre). split.
  - rewrite firstn_app, firstn_all, Nat.sub_diag, app_nil_r.
    rewrite app_nth2, Nat.sub_diag by lia. cbn [nth firstn].
    change (pre ++ m :: post) with (pre ++ [m] ++ post).
    rewrite app_assoc.
    replace (S (List.length pre)) with (List.length (pre ++ [m]))
      by (rewrite length_app; simpl; lia).
    rewrite skipn_app, skipn_all, Nat.sub_diag. reflexivity.
  - apply in_seq. rewrite length_app. simpl. lia.
Qed.

Lemma nodup_apart {A : Type} (l1 l2 : list A) :
  NoDup (l1 ++ l2) -> NoDup l1 /\ forall a, In a l2 -> ~ In a l1.
Proof.
  induction l1 as [|x l1 IH]; cbn [app]; intro H.
  - split; [apply NoDup_nil | intros a _ []].
  - inversion H as [|y l Hx Hrest]; subst.
    destruct (IH Hrest) as [Hn Hd]. split.
    + apply NoDup_cons; [|exact Hn].
      intro Hin. apply Hx. apply in_or_app. now left.
    + intros a Ha [<- | Hin].
      * apply Hx. apply in_or_app. now right.
      * exact (Hd a Ha Hin).
Qed.

(** The stacks of the table: the middlewares, each one once, and then the
    controller. *)
Lemma stack_of_router (r : Route Handler) (pre post : list Handler) (m : Handler) :
  In r router ->
  route_stack r = pre ++ m :: post ->
  is_controller m = false ->
  NoDup (pre ++ m :: post) /\
  (exists middle controller,
     post = middle ++ [controller] /\ is_controller controller = true /\
     Forall (fun h => is_controller h = false) (pre ++ m :: middle)).
Proof.
  intros Hin Hstack Hm. vm_compute in Hin.
  destruct Hin as [<- | [<- | [<- | [<- | [<- | [<- | [<- | [<- | [<- | []]]]]]]]]];
    cbn [route_stack] in Hstack; apply places in Hstack;
    cbn [map seq length firstn skipn nth In] in Hstack;
    repeat (destruct Hstack as [Hstack | Hstack];
            [injection Hstack as <- <- <-; try discriminate Hm|]);
    try contradiction;
    (split;
     [ repeat (apply NoDup_cons; [not_in|]); apply NoDup_nil
     | match goal with
       | |- exists middle controller, ?l = _ /\ _ =>
           let p := eval cbn in (removelast l) in
           let c := eval cbn in (last l userMiddleware_checkIfExists) in
           exists p, c
       end;
       split; [reflexivity|]; split; [reflexivity|];
       repeat (apply Forall_cons; [reflexivity|]); apply Forall_nil ]).
Qed.

(** C7.  With the middlewares as the specification has them: for every
    route of the router, every request it matches and every middleware [m]
    of the route's chain, when the checks of the middlewares before [m]
    pass and the check of [m] rejects the request with an error response,
    the router's answer to the caller is that response; the handlers called
    are the middlewares up to [m], each of them once; no middleware after
    [m] in the chain is called, and not the controller that ends the chain,
    nor any other controller; and the world is the one the check of [m]
    left: nothing runs after the rejection and nothing is tried again. *)
Theorem rejection_short_circuits_the_chain
    (World : Type)
    (checks : Handler -> Request -> Params -> World -> Verdict * World)
    (controllers : Handler -> Request -> Params -> World -> Outcome * World)
    (req : Request) (r : Route Handler) (ps : Params)
    (pre post : list Handler) (m : Handler) (res : Response) (w w' w'' : World) :
  In r router ->
  match_route r req = Some ps ->
  route_stack r = pre ++ m :: post ->
  is_controller m = false ->
  passes (handlers checks controllers) pre req ps w = Some w' ->
  checks m req ps w' = (Reject res, w'') ->
  let run := handle (handlers checks controllers) router req w in
  run = {| ending := Responded res; called := pre ++ [m]; world := w'' |} /\
  (forall h, In h post -> ~ In h (called run)) /\
  (exists middle controller,
     post = middle ++ [controller] /\ is_controller controller = true /\
     ~ In controller (called run)) /\
  (forall c, is_controller c = true -> ~ In c (called run)) /\
  NoDup (called run).
Proof.
  intros Hin Hr Hstack Hm Hpre Hcheck run.
  assert (Hturn : handlers checks controllers m req ps w' = (Send res, w'')).
  { unfold handlers. rewrite Hm. unfold middleware. now rewrite Hcheck. }
  assert (Hrun : run = {| ending := Responded res; called := pre ++ [m];
                          world := w'' |}).
  { subst run. rewrite (handle_router _ req r ps w Hin Hr), Hstack.
    rewrite (dispatch_stops _ pre post m req ps w w' w'' _ Hpre Hturn);
      [reflexivity | discriminate]. }
  split; [exact Hrun|]. rewrite Hrun. cbn [called].
  destruct (stack_of_router r pre post m Hin Hstack Hm)
    as (Hnodup & middle & controller & Hpost & Hctrl & Hmid).
  assert (Hlater : forall h, In h post -> ~ In h (pre ++ [m])).
  { intros h Hh Hc.
    change (pre ++ m :: post) with (pre ++ [m] ++ post) in Hnodup.
    rewrite app_assoc in Hnodup.
    exact (proj2 (nodup_apart _ _ Hnodup) h Hh Hc). }
  assert (Hmiddlewares : forall c, is_controller c = true -> ~ In c (pre ++ [m])).
  { intros c Hc Hcalled. rewrite Forall_forall in Hmid.
    rewrite (Hmid c) in Hc; [discriminate|].
    change (pre ++ m :: middle) with (pre ++ [m] ++ middle).
    rewrite app_assoc. apply in_or_app. now left. }
  split; [exact Hlater|]. split.
  - exists middle, controller. split; [exact Hpost|]. split; [exact Hctrl|].
    exact (Hmiddlewares controller Hctrl).
  - split; [exact Hmiddlewares|].
    change (pre ++ m :: post) with (pre ++ [m] ++ post) in Hnodup.
    rewrite app_assoc in Hnodup. exact (proj1 (nodup_apart _ _ Hnodup)).
Qed.

Lemma rejection_short_circuits_the_chain_witness :
  exists r,
    In r router /\
    match_route r (request PATCH "/42/update/password") = Some [("id", "42")] /\
    route_stack r =
      [rateLimit_updatePassword] ++ userMiddleware_checkPermissions
        :: [userMiddleware_checkIfExists; userController_updatePassword] /\
    is_controller userMiddleware_checkPermissions = false /\
    passes (handlers (rejecting_at userMiddleware_checkPermissions forbidden)
                     answering)
           [rateLimit_updatePassword]
           (request PATCH "/42/update/password") [("id", "42")] 0 = Some 1 /\
    rejecting_at userMiddleware_checkPermissions forbidden
      userMiddleware_checkPermissions
      (request PATCH "/42/update/password") [("id", "42")] 1
    = (Reject forbidden, 2) /\
    handle (handlers (rejecting_at userMiddleware_checkPermissions forbidden)
                     answering)
           router (request PATCH "/42/update/password") 0 =
    {| ending := Responded forbidden;
       called := [rateLimit_updatePassword; userMiddleware_checkPermissions];
       world := 2 |}.
Proof.
  exists {| route_method := PATCH; route_path := "/:id(\d+)/update/password";
            route_stack := [rateLimit_updatePassword;
                            userMiddleware_checkPermissions;
                            userMiddleware_checkIfExists;
                            userController_updatePassword] |}.
  assert (Hin : In {| route_method := PATCH;
                      route_path := "/:id(\d+)/update/password";
                      route_stack := [rateLimit_updatePassword;
                                      userMiddleware_checkPermissions;
                                      userMiddleware_checkIfExists;
                                      userController_updatePassword] |} router)
    by (vm_compute; tauto).
  split; [exact Hin|]. split; [reflexivity|]. split; [reflexivity|].
  split; [reflexivity|]. split; [reflexivity|]. split; [reflexivity|].
  exact (proj1 (rejection_short_circuits_the_chain nat
                  (rejecting_at userMiddleware_checkPermissions forbidden)
                  answering
                  (request PATCH "/42/update/password") _ [("id", "42")]
                  [rateLimit_updatePassword]
                  [userMiddleware_checkIfExists; userController_updatePassword]
                  userMiddleware_checkPermissions forbidden 0 1 2
                  Hin eq_refl eq_refl eq_refl eq_refl eq_refl)).
Defined.

End UserRouterTableFacts.
